(** * YUME-Coin Catcher: the simulation engine of [Game], embedded and verified

    The embedding follows the component [Game] of the coin-catcher sources:
    the difficulty model, the entity factory, the physics / scroll / spawn
    pipeline of [gameLoop], the collision resolver [checkCollisions], the
    one-second timer, the jump input and [restartGame].

    Modelling conventions.
    - A JavaScript [number] is an exact rational ([Q]); every numeric literal
      of the source (0.3, 0.2, 0.015, ...) is a decimal and is represented
      exactly.  Equality of numbers is [Qeq] ([==]).  Rounding of IEEE
      doubles is not modelled.
    - [Math.random()] reads from an explicit random tape ([rng]); the
      functions that draw are written in the small state monad [Rand].
    - [setTimeout] calls are returned as a list of armed [Timeout]s; the
      React state cell, the tape, the [lastTimeRef] cell and the armed
      timeouts together form a [World] on which events act.
    - A TypeScript interface becomes a record inside a module of the same
      name, so that fields keep their names ([Player.x], [Obstacle.x], ...). *)

From Stdlib Require Import QArith Qround Qminmax Lqa ZArith Lia List Bool.
From Stdlib Require PrimFloat.
Import ListNotations.

Local Open Scope Q_scope.

(** ** Numbers *)

Abbreviation number := Q (only parsing).

(** [a < b] and [a > b] on numbers, as booleans. *)
Definition Qltb (a b : number) : bool := negb (Qle_bool b a).
Definition Qgtb (a b : number) : bool := Qltb b a.

Infix "<?" := Qltb (at level 70, no associativity) : Q_scope.
Infix ">?" := Qgtb (at level 70, no associativity) : Q_scope.
Infix "<=?" := Qle_bool (at level 70, no associativity) : Q_scope.

(** [Math.floor], with its integer result read back as a number. *)
Definition Math_floor (a : number) : number := inject_Z (Qfloor a).
Definition Math_max (a b : number) : number := Qmax a b.
Definition Math_min (a b : number) : number := Qmin a b.

(** ** Data model *)

Inductive CollectibleType : Type := token | moonRocket | diamondHands.
Inductive ObstacleType : Type := rugPull | marketDump | whaleWave.

Module Player.
Record t : Type := mk {
  x : number;
  y : number;
  width : number;
  height : number;
  rotation : option number;
  velocity : number;
  isInvincible : bool;
  hasDoublePoints : bool
}.
End Player.

Module Collectible.
Record t : Type := mk {
  type : CollectibleType;
  x : number;
  y : number;
  width : number;
  height : number;
  rotation : option number
}.
End Collectible.

Module Obstacle.
Record t : Type := mk {
  type : ObstacleType;
  x : number;
  y : number;
  width : number;
  height : number;
  rotation : option number
}.
End Obstacle.

Module GameState.
Record t : Type := mk {
  player : Player.t;
  collectibles : list Collectible.t;
  obstacles : list Obstacle.t;
  score : number;
  timeLeft : number;
  isGameOver : bool;
  isPaused : bool
}.
End GameState.

(** The interface [GameObject] that the three entity records extend. *)
Class GameObject (A : Type) : Type := {
  obj_x : A -> number;
  obj_y : A -> number;
  obj_width : A -> number;
  obj_height : A -> number
}.

#[export] Instance Player_GameObject : GameObject Player.t :=
  {| obj_x := Player.x; obj_y := Player.y;
     obj_width := Player.width; obj_height := Player.height |}.
#[export] Instance Collectible_GameObject : GameObject Collectible.t :=
  {| obj_x := Collectible.x; obj_y := Collectible.y;
     obj_width := Collectible.width; obj_height := Collectible.height |}.
#[export] Instance Obstacle_GameObject : GameObject Obstacle.t :=
  {| obj_x := Obstacle.x; obj_y := Obstacle.y;
     obj_width := Obstacle.width; obj_height := Obstacle.height |}.

(** ** Constants *)

Definition BASE_GAME_WIDTH : number := 800.
Definition BASE_GAME_HEIGHT : number := 600.
Definition GRAVITY : number := 0.3.
Definition JUMP_FORCE : number := -7.
Definition PLAYER_SIZE : number := 40.
Definition INITIAL_TIME : number := 30.

Definition TIME_BONUS (k : CollectibleType) : number :=
  match k with token => 2 | moonRocket => 5 | diamondHands => 3 end.

Definition SCORE_VALUES (k : CollectibleType) : number :=
  match k with token => 10 | moonRocket => 15 | diamondHands => 20 end.

Definition BASE_HORIZONTAL_SPEED : number := 3.
Definition BASE_OBSTACLE_SPEED : number := 4.
Definition BASE_SPAWN_RATE_collectible : number := 0.015.
Definition BASE_SPAWN_RATE_obstacle : number := 0.008.

(** ** Difficulty model *)

Definition getDifficultyMultiplier (score : number) : number :=
  1 + Math_floor (score / 100) * 0.2.

Record SpawnRates : Type := { rate_collectible : number; rate_obstacle : number }.
Record Speeds : Type := { horizontal : number; obstacle : number }.

Definition getSpawnRates (score : number) : SpawnRates :=
  let multiplier := getDifficultyMultiplier score in
  {| rate_collectible := Math_min (BASE_SPAWN_RATE_collectible * multiplier) 0.03;
     rate_obstacle := Math_min (BASE_SPAWN_RATE_obstacle * multiplier) 0.02 |}.

Definition getSpeeds (score : number) : Speeds :=
  let multiplier := getDifficultyMultiplier score in
  {| horizontal := BASE_HORIZONTAL_SPEED * multiplier;
     obstacle := BASE_OBSTACLE_SPEED * multiplier |}.

Definition initialPlayer : Player.t :=
  {| Player.x := 100;
     Player.y := BASE_GAME_HEIGHT / 2;
     Player.width := PLAYER_SIZE;
     Player.height := PLAYER_SIZE;
     Player.rotation := None;
     Player.velocity := 0;
     Player.isInvincible := false;
     Player.hasDoublePoints := false |}.

(** The argument of [useState], which [restartGame] writes again. *)
Definition initialGameState : GameState.t :=
  {| GameState.player := initialPlayer;
     GameState.collectibles := [];
     GameState.obstacles := [];
     GameState.score := 0;
     GameState.timeLeft := INITIAL_TIME;
     GameState.isGameOver := false;
     GameState.isPaused := false |}.

(** ** Record updates ([{ ...o, field: v }]) *)

Definition Player_with_y_velocity (p : Player.t) (y' v' : number) : Player.t :=
  {| Player.x := Player.x p; Player.y := y';
     Player.width := Player.width p; Player.height := Player.height p;
     Player.rotation := Player.rotation p; Player.velocity := v';
     Player.isInvincible := Player.isInvincible p;
     Player.hasDoublePoints := Player.hasDoublePoints p |}.

Definition Player_with_velocity (p : Player.t) (v' : number) : Player.t :=
  Player_with_y_velocity p (Player.y p) v'.

Definition Player_with_flags (p : Player.t) (inv dbl : bool) : Player.t :=
  {| Player.x := Player.x p; Player.y := Player.y p;
     Player.width := Player.width p; Player.height := Player.height p;
     Player.rotation := Player.rotation p; Player.velocity := Player.velocity p;
     Player.isInvincible := inv; Player.hasDoublePoints := dbl |}.

Definition Collectible_with_x (c : Collectible.t) (x' : number) : Collectible.t :=
  {| Collectible.type := Collectible.type c; Collectible.x := x';
     Collectible.y := Collectible.y c; Collectible.width := Collectible.width c;
     Collectible.height := Collectible.height c;
     Collectible.rotation := Collectible.rotation c |}.

Definition Obstacle_with_x (o : Obstacle.t) (x' : number) : Obstacle.t :=
  {| Obstacle.type := Obstacle.type o; Obstacle.x := x';
     Obstacle.y := Obstacle.y o; Obstacle.width := Obstacle.width o;
     Obstacle.height := Obstacle.height o;
     Obstacle.rotation := Obstacle.rotation o |}.

Definition GameState_with_player (s : GameState.t) (p : Player.t) : GameState.t :=
  {| GameState.player := p;
     GameState.collectibles := GameState.collectibles s;
     GameState.obstacles := GameState.obstacles s;
     GameState.score := GameState.score s;
     GameState.timeLeft := GameState.timeLeft s;
     GameState.isGameOver := GameState.isGameOver s;
     GameState.isPaused := GameState.isPaused s |}.

Definition GameState_with_timeLeft (s : GameState.t) (t' : number) : GameState.t :=
  {| GameState.player := GameState.player s;
     GameState.collectibles := GameState.collectibles s;
     GameState.obstacles := GameState.obstacles s;
     GameState.score := GameState.score s;
     GameState.timeLeft := t';
     GameState.isGameOver := GameState.isGameOver s;
     GameState.isPaused := GameState.isPaused s |}.

(** ** Randomness

    The tape lists the values the successive calls of [Math.random()]
    return; the contract of [Math.random] is that each lies in [[0, 1)]. *)

Definition rng : Type := nat -> number.

Definition unit_interval (g : rng) : Prop := forall n : nat, 0 <= g n /\ g n < 1.

Definition Rand (A : Type) : Type := rng -> A * rng.

Definition ret {A : Type} (a : A) : Rand A := fun g => (a, g).

Definition bind {A B : Type} (m : Rand A) (k : A -> Rand B) : Rand B :=
  fun g => let (a, g') := m g in k a g'.

Notation "x <- m ;; k" := (bind m (fun x => k))
  (at level 61, m at next level, right associativity).

Definition Math_random : Rand number :=
  fun g => (g 0%nat, fun n => g (S n)).

(** ** Entity factory *)

Definition collectibleTypes : list CollectibleType := [token; moonRocket; diamondHands].
Definition obstacleTypes : list ObstacleType := [rugPull; marketDump; whaleWave].

(** [types[Math.floor(r * types.length)]].  For a draw in [[0, 1)] the index
    is 0, 1 or 2; the default of [nth] stands for the [undefined] that an
    index outside the array would give and is never reached on such a draw. *)
Definition pickType {T : Type} (types : list T) (default : T) (r : number) : T :=
  nth (Z.to_nat (Qfloor (r * inject_Z (Z.of_nat (length types))))) types default.

Definition spawnCollectible : Rand Collectible.t :=
  r <- Math_random ;;
  let type := pickType collectibleTypes token r in
  r' <- Math_random ;;
  let rotation := r' * 360 in
  ry <- Math_random ;;
  ret {| Collectible.type := type;
         Collectible.x := BASE_GAME_WIDTH;
         Collectible.y := ry * (BASE_GAME_HEIGHT - PLAYER_SIZE);
         Collectible.width := PLAYER_SIZE;
         Collectible.height := PLAYER_SIZE;
         Collectible.rotation := Some rotation |}.

Definition spawnObstacle : Rand Obstacle.t :=
  r <- Math_random ;;
  let type := pickType obstacleTypes rugPull r in
  r' <- Math_random ;;
  let rotation := r' * 360 in
  ry <- Math_random ;;
  ret {| Obstacle.type := type;
         Obstacle.x := BASE_GAME_WIDTH;
         Obstacle.y := ry * (BASE_GAME_HEIGHT - PLAYER_SIZE);
         Obstacle.width := PLAYER_SIZE * 1.5;
         Obstacle.height := PLAYER_SIZE * 1.5;
         Obstacle.rotation := Some rotation |}.

(** ** Collision resolver *)

Definition updateScore (collectibleType : CollectibleType) (hasDoublePoints : bool) : number :=
  let baseScore := SCORE_VALUES collectibleType in
  let multiplier := if hasDoublePoints then 2 else 1 in
  baseScore * multiplier.

(** The axis-aligned overlap test that [checkCollisions] writes out for the
    collectibles ([hasCollided]) and again for the obstacles. *)
Definition hasCollided {B : Type} `{GameObject B} (player : Player.t) (b : B) : bool :=
  (Player.x player <? obj_x b + obj_width b) &&
  (Player.x player + Player.width player >? obj_x b) &&
  (Player.y player <? obj_y b + obj_height b) &&
  (Player.y player + Player.height player >? obj_y b).

(** The deferred callbacks handed to [setTimeout]. *)
Inductive Timeout : Type := clearDoublePoints | clearInvincible.

Definition delay (t : Timeout) : number :=
  match t with clearDoublePoints => 5000 | clearInvincible => 3000 end.

(** The state updater a timeout runs when it fires. *)
Definition runTimeout (t : Timeout) (prev : GameState.t) : GameState.t :=
  let p := GameState.player prev in
  match t with
  | clearDoublePoints =>
      GameState_with_player prev (Player_with_flags p (Player.isInvincible p) false)
  | clearInvincible =>
      GameState_with_player prev (Player_with_flags p false (Player.hasDoublePoints p))
  end.

(** The [let] variables of [checkCollisions] that the filter callback
    mutates, together with the timeouts it has armed so far. *)
Record Locals : Type := {
  newScore : number;
  isInvincible : bool;
  hasDoublePoints : bool;
  timeBonus : number;
  armedNow : list Timeout
}.

(** The callback given to [collectibles.filter]: its verdict (keep or not)
    and its effect on the locals. *)
Definition collectCallback (player : Player.t) (collectible : Collectible.t)
    (l : Locals) : bool * Locals :=
  if hasCollided player collectible then
    let timeBonus' := timeBonus l + TIME_BONUS (Collectible.type collectible) in
    let newScore' :=
      newScore l + updateScore (Collectible.type collectible) (Player.hasDoublePoints player) in
    let l' :=
      match Collectible.type collectible with
      | moonRocket =>
          {| newScore := newScore'; isInvincible := isInvincible l;
             hasDoublePoints := true; timeBonus := timeBonus';
             armedNow := armedNow l ++ [clearDoublePoints] |}
      | diamondHands =>
          {| newScore := newScore'; isInvincible := true;
             hasDoublePoints := hasDoublePoints l; timeBonus := timeBonus';
             armedNow := armedNow l ++ [clearInvincible] |}
      | token =>
          {| newScore := newScore'; isInvincible := isInvincible l;
             hasDoublePoints := hasDoublePoints l; timeBonus := timeBonus';
             armedNow := armedNow l |}
      end in
    (false, l')
  else (true, l).

(** [Array.prototype.filter] with a callback that has effects: elements are
    visited in order, the effects are threaded from left to right. *)
Fixpoint filterWith {A S : Type} (f : A -> S -> bool * S) (xs : list A) (s : S)
    : list A * S :=
  match xs with
  | [] => ([], s)
  | a :: xs' =>
      let (keep, s1) := f a s in
      let (rest, s2) := filterWith f xs' s1 in
      (if keep then a :: rest else rest, s2)
  end.

Definition checkCollisions (state : GameState.t) : GameState.t * list Timeout :=
  let player := GameState.player state in
  let collectibles := GameState.collectibles state in
  let obstacles := GameState.obstacles state in
  let l0 := {| newScore := GameState.score state;
               isInvincible := Player.isInvincible player;
               hasDoublePoints := Player.hasDoublePoints player;
               timeBonus := 0;
               armedNow := [] |} in
  let (remainingCollectibles, l) := filterWith (collectCallback player) collectibles l0 in
  let hasHitObstacle := existsb (hasCollided player) obstacles in
  ({| GameState.player := Player_with_flags player (isInvincible l) (hasDoublePoints l);
      GameState.collectibles := remainingCollectibles;
      GameState.obstacles := GameState.obstacles state;
      GameState.score := newScore l;
      GameState.timeLeft := GameState.timeLeft state + timeBonus l;
      GameState.isGameOver :=
        (hasHitObstacle && negb (isInvincible l)) || (GameState.timeLeft state <=? 0);
      GameState.isPaused := GameState.isPaused state |},
   armedNow l).

(** ** The tick: physics, scroll, cull, spawn, collisions *)

(** [newPlayer] of the state updater in [gameLoop]: integration of gravity,
    then the two clamps, in the order of the source. *)
Definition newPlayer (prev : GameState.t) : Player.t :=
  let p := GameState.player prev in
  let newVelocity := Player.velocity p + GRAVITY in
  let newY := Player.y p + newVelocity in
  let p1 := Player_with_y_velocity p newY newVelocity in
  let p2 :=
    if Player.y p1 >? BASE_GAME_HEIGHT - PLAYER_SIZE
    then Player_with_y_velocity p1 (BASE_GAME_HEIGHT - PLAYER_SIZE) 0
    else p1 in
  if Player.y p2 <? 0
  then Player_with_y_velocity p2 0 (Math_max 0 (Player.velocity p2))
  else p2.

(** The entities that survive the cull, each shifted left. *)
Definition scrollCollectibles (horizontalMove : number) (cs : list Collectible.t)
    : list Collectible.t :=
  map (fun c => Collectible_with_x c (Collectible.x c - horizontalMove))
      (filter (fun c => Collectible.x c >? - PLAYER_SIZE) cs).

Definition scrollObstacles (obstacleMove : number) (os : list Obstacle.t)
    : list Obstacle.t :=
  map (fun o => Obstacle_with_x o (Obstacle.x o - obstacleMove))
      (filter (fun o => Obstacle.x o >? - PLAYER_SIZE) os).

Definition horizontalMove (deltaTime score : number) : number :=
  horizontal (getSpeeds score) * (deltaTime / 16).

Definition obstacleMove (deltaTime score : number) : number :=
  obstacle (getSpeeds score) * (deltaTime / 16).

(** [newState]: the snapshot handed to [checkCollisions].  It is only built
    when the session is neither over nor paused. *)
Definition newState (deltaTime : number) (prev : GameState.t) : Rand GameState.t :=
  let spawnRates := getSpawnRates (GameState.score prev) in
  r1 <- Math_random ;;
  let shouldSpawnCollectible := r1 <? rate_collectible spawnRates in
  r2 <- Math_random ;;
  let shouldSpawnObstacle := r2 <? rate_obstacle spawnRates in
  spawnedC <- (if shouldSpawnCollectible
               then c <- spawnCollectible ;; ret [c] else ret []) ;;
  let newCollectibles :=
    scrollCollectibles (horizontalMove deltaTime (GameState.score prev))
                       (GameState.collectibles prev) ++ spawnedC in
  spawnedO <- (if shouldSpawnObstacle
               then o <- spawnObstacle ;; ret [o] else ret []) ;;
  let newObstacles :=
    scrollObstacles (obstacleMove deltaTime (GameState.score prev))
                    (GameState.obstacles prev) ++ spawnedO in
  ret {| GameState.player := newPlayer prev;
         GameState.collectibles := newCollectibles;
         GameState.obstacles := newObstacles;
         GameState.score := GameState.score prev;
         GameState.timeLeft := GameState.timeLeft prev;
         GameState.isGameOver := GameState.isGameOver prev;
         GameState.isPaused := GameState.isPaused prev |}.

(** The state updater that [gameLoop] passes to [setGameState] on an
    evaluated tick; the second component lists the timeouts it arms. *)
Definition tick (deltaTime : number) (prev : GameState.t)
    : Rand (GameState.t * list Timeout) :=
  if GameState.isGameOver prev || GameState.isPaused prev then ret (prev, [])
  else s <- newState deltaTime prev ;; ret (checkCollisions s).

(** The snapshot that an evaluated tick leaves in the state cell. *)
Definition tickState (deltaTime : number) (prev : GameState.t) (g : rng) : GameState.t :=
  fst (fst (tick deltaTime prev g)).

(** The snapshot after movement and spawning, before collisions. *)
Definition movedState (deltaTime : number) (prev : GameState.t) (g : rng) : GameState.t :=
  fst (newState deltaTime prev g).

(** ** The other writers of the state *)

(** [handleInteraction]: the jump. *)
Definition handleInteraction (prev : GameState.t) : GameState.t :=
  GameState_with_player prev (Player_with_velocity (GameState.player prev) JUMP_FORCE).

(** The callback of the one-second [setInterval]. *)
Definition timerCallback (prev : GameState.t) : GameState.t :=
  GameState_with_timeLeft prev (Math_max 0 (GameState.timeLeft prev - 1)).

(** The guard of the timer effect: the interval exists only while the
    session is neither over nor paused. *)
Definition timerRunning (s : GameState.t) : bool :=
  negb (GameState.isGameOver s) && negb (GameState.isPaused s).

Definition restartGame : GameState.t := initialGameState.

(** ** The component as a transition system *)

Record World : Type := {
  gameState : GameState.t;
  lastTimeRef : number;
  tape : rng;
  armed : list Timeout
}.

Definition initialWorld (g : rng) : World :=
  {| gameState := initialGameState; lastTimeRef := 0; tape := g; armed := [] |}.

(** [gameLoop(timestamp)], one animation frame. *)
Definition gameLoop (timestamp : number) (w : World) : World :=
  let last := if Qeq_bool (lastTimeRef w) 0 then timestamp else lastTimeRef w in
  let deltaTime := timestamp - last in
  if deltaTime >? 16 then
    let '((s', ts), g') := tick deltaTime (gameState w) (tape w) in
    {| gameState := s'; lastTimeRef := timestamp; tape := g';
       armed := armed w ++ ts |}
  else
    {| gameState := gameState w; lastTimeRef := last; tape := tape w;
       armed := armed w |}.

Definition setGameState (f : GameState.t -> GameState.t) (w : World) : World :=
  {| gameState := f (gameState w); lastTimeRef := lastTimeRef w;
     tape := tape w; armed := armed w |}.

Fixpoint removeAt {A : Type} (i : nat) (xs : list A) : list A :=
  match i, xs with
  | _, [] => []
  | O, _ :: xs' => xs'
  | S i', a :: xs' => a :: removeAt i' xs'
  end.

(** What can happen to the mounted component.  [PlayAgain] is the button
    that calls [restartGame]; it is rendered only on the game-over overlay.
    [TimeoutFires i] is the expiry of the [i]-th armed timeout; nothing in
    the source ever cancels one. *)
Inductive Event : Type :=
  | AnimationFrame (timestamp : number)
  | IntervalTick
  | Interaction
  | PlayAgain
  | TimeoutFires (i : nat).

Definition dispatch (e : Event) (w : World) : World :=
  match e with
  | AnimationFrame timestamp => gameLoop timestamp w
  | IntervalTick =>
      if timerRunning (gameState w) then setGameState timerCallback w else w
  | Interaction => setGameState handleInteraction w
  | PlayAgain =>
      if GameState.isGameOver (gameState w)
      then setGameState (fun _ => restartGame) w else w
  | TimeoutFires i =>
      match nth_error (armed w) i with
      | Some t =>
          {| gameState := runTimeout t (gameState w); lastTimeRef := lastTimeRef w;
             tape := tape w; armed := removeAt i (armed w) |}
      | None => w
      end
  end.

Definition run (es : list Event) (w : World) : World :=
  fold_left (fun w e => dispatch e w) es w.

(** ** Vocabulary of the statements *)

(** The session is in the Playing state. *)
Definition playing (s : GameState.t) : Prop :=
  GameState.isGameOver s = false /\ GameState.isPaused s = false.

(** The collectibles of a list that the player's box overlaps. *)
Definition collected (player : Player.t) (cs : list Collectible.t) : list Collectible.t :=
  filter (hasCollided player) cs.

Definition sumOver {A : Type} (f : A -> number) (xs : list A) : number :=
  fold_right (fun a acc => f a + acc) 0 xs.

Definition isType (k : CollectibleType) (c : Collectible.t) : bool :=
  match k, Collectible.type c with
  | token, token | moonRocket, moonRocket | diamondHands, diamondHands => true
  | _, _ => false
  end.

(** The bounding boxes of the player and of [b] overlap. *)
Definition overlaps {B : Type} `{GameObject B} (player : Player.t) (b : B) : Prop :=
  Player.x player < obj_x b + obj_width b
  /\ obj_x b < Player.x player + Player.width player
  /\ Player.y player < obj_y b + obj_height b
  /\ obj_y b < Player.y player + Player.height player.

(** A tape that returns the same draw for ever. *)
Definition constTape (r : number) : rng := fun _ => r.

(** What collecting [c] adds to the score and to the time left. *)
Definition scoreOf (player : Player.t) (c : Collectible.t) : number :=
  updateScore (Collectible.type c) (Player.hasDoublePoints player).

Definition bonusOf (c : Collectible.t) : number := TIME_BONUS (Collectible.type c).

(** The timeouts that collecting [c] arms. *)
Definition expiryOf (c : Collectible.t) : list Timeout :=
  match Collectible.type c with
  | moonRocket => [clearDoublePoints]
  | diamondHands => [clearInvincible]
  | token => []
  end.

(** ** Scenarios

    Concrete runs of the component, used to evaluate the code. *)

(** A tape given by its first draws; later draws are 0.5, which is above
    both spawn caps and so spawns nothing. *)
Definition tapeOf (draws : list number) : rng := fun n => nth n draws 0.5.

(** What the statements below read off an entity. *)
Definition boxOfObstacle (o : Obstacle.t) : number * number * number * number :=
  (Qred (Obstacle.x o), Qred (Obstacle.y o),
   Qred (Obstacle.width o), Qred (Obstacle.height o)).

Definition boxOfCollectible (c : Collectible.t)
    : CollectibleType * number * number * number * number :=
  (Collectible.type c, Qred (Collectible.x c), Qred (Collectible.y c),
   Qred (Collectible.width c), Qred (Collectible.height c)).

(** An obstacle is spawned on the first evaluated tick (second draw below
    the obstacle rate) and two long frames bring it to [x = -50]. *)
Definition lingeringTape : rng := tapeOf [0.5; 0.001; 0.5; 0.5; 0.1].

Definition lingeringFrames : list Event :=
  [AnimationFrame 1000; AnimationFrame 1017; AnimationFrame 4369;
   AnimationFrame 4417].

Definition lingeringWorld : World := run lingeringFrames (initialWorld lingeringTape).

(** Sessions about to collect: entities of the factory's sizes that the
    scroll has brought next to the player, who stands at [x = 100]. *)
Definition collectibleAt (k : CollectibleType) (x y : number) : Collectible.t :=
  {| Collectible.type := k; Collectible.x := x; Collectible.y := y;
     Collectible.width := PLAYER_SIZE; Collectible.height := PLAYER_SIZE;
     Collectible.rotation := Some 0 |}.

Definition obstacleAt (k : ObstacleType) (x y : number) : Obstacle.t :=
  {| Obstacle.type := k; Obstacle.x := x; Obstacle.y := y;
     Obstacle.width := PLAYER_SIZE * 1.5; Obstacle.height := PLAYER_SIZE * 1.5;
     Obstacle.rotation := Some 0 |}.

Definition sessionWith (cs : list Collectible.t) (os : list Obstacle.t) : GameState.t :=
  {| GameState.player := initialPlayer;
     GameState.collectibles := cs;
     GameState.obstacles := os;
     GameState.score := 0;
     GameState.timeLeft := INITIAL_TIME;
     GameState.isGameOver := false;
     GameState.isPaused := false |}.

(** A [diamondHands] and an obstacle both reach the player. *)
Definition shieldedState : GameState.t :=
  sessionWith [collectibleAt diamondHands 110 300] [obstacleAt rugPull 120 300].

(** A single token reaches the player. *)
Definition tokenState : GameState.t :=
  sessionWith [collectibleAt token 110 300] [].

(** A token and a [moonRocket] reach the player in the same tick. *)
Definition crowdedState : GameState.t :=
  sessionWith [collectibleAt token 110 300; collectibleAt moonRocket 125 310] [].

(** The entity [c] after the scroll of a 17 ms tick at score 0. *)
Definition scrolled17 (c : Collectible.t) : Collectible.t :=
  Collectible_with_x c (Collectible.x c - horizontalMove 17 0).

(** The clock runs out: thirty interval callbacks bring the time left to 0
    and the next evaluated tick ends the session. *)
Definition timedOutWorld : World :=
  run ([AnimationFrame 1000] ++ repeat IntervalTick 30 ++ [AnimationFrame 1017])
      (initialWorld (tapeOf [])).

(** A [moonRocket] is collected in the tick in which an obstacle ends the
    first session; after [PlayAgain] the new session collects a
    [moonRocket] of its own, while the timeout of the first is still armed. *)
Definition staleTape : rng :=
  tapeOf [0.001; 0.5; 0.5; 0.5; 0.5;
          0.5; 0.001; 0.5; 0.5; 0.5;
          0.5; 0.5;
          0.001; 0.5; 0.5; 0.5; 0.5].

Definition firstSession : list Event :=
  [AnimationFrame 1000; AnimationFrame 1017; AnimationFrame 1945;
   AnimationFrame 4745].

Definition secondSession : list Event :=
  [PlayAgain; AnimationFrame 4800; AnimationFrame 8528].

Definition endOfFirstSession : World := run firstSession (initialWorld staleTape).

Definition restartedWorld : World := run secondSession endOfFirstSession.

(** ** Viewport layout *)

(** The three state cells that [updateGameDimensions] writes. *)
Record Layout : Type := {
  scale : number;
  gameWidth : number;
  gameHeight : number
}.

Definition initialLayout : Layout :=
  {| scale := 1; gameWidth := BASE_GAME_WIDTH; gameHeight := BASE_GAME_HEIGHT |}.

(** [updateGameDimensions], with [window.innerWidth], [window.innerHeight]
    and whether [containerRef.current] is set as inputs. *)
Definition updateGameDimensions (containerMounted : bool)
    (innerWidth innerHeight : number) (l : Layout) : Layout :=
  if negb containerMounted then l
  else
    let isMobile := innerWidth <? 768 in
    let padding : number := if isMobile then 8 else 32 in
    let containerWidth := Math_min (innerWidth - padding * 2) BASE_GAME_WIDTH in
    let maxHeight := innerHeight - (if isMobile then 120 else 300) in
    if isMobile then
      let heightScale := maxHeight / BASE_GAME_HEIGHT in
      let widthScale := containerWidth / BASE_GAME_WIDTH in
      let scale' := Math_min heightScale widthScale in
      let height := BASE_GAME_HEIGHT * scale' in
      {| scale := scale'; gameWidth := containerWidth; gameHeight := height |}
    else
      let scale' := containerWidth / BASE_GAME_WIDTH in
      let height := BASE_GAME_HEIGHT * scale' in
      {| scale := scale'; gameWidth := containerWidth; gameHeight := height |}.

(** ** Well-formed sessions *)

(** The player never leaves the column [x = 100] and stays in the field. *)
Definition playerInBounds (p : Player.t) : Prop :=
  Player.x p == 100 /\ Player.width p == 40 /\ Player.height p == 40
  /\ 0 <= Player.y p /\ Player.y p <= 560.

Definition collectibleInField (c : Collectible.t) : Prop :=
  Collectible.width c == 40 /\ Collectible.height c == 40
  /\ Collectible.x c <= 800
  /\ 0 <= Collectible.y c /\ Collectible.y c < 560.

Definition obstacleInField (o : Obstacle.t) : Prop :=
  Obstacle.width o == 60 /\ Obstacle.height o == 60
  /\ Obstacle.x o <= 800
  /\ 0 <= Obstacle.y o /\ Obstacle.y o < 560.

Definition sessionInField (s : GameState.t) : Prop :=
  Forall collectibleInField (GameState.collectibles s)
  /\ Forall obstacleInField (GameState.obstacles s)
  /\ 0 <= GameState.score s.

(** The number is an integer / an integer multiple of 5. *)
Definition integral (q : number) : Prop := exists n : Z, q == inject_Z n.
Definition multipleOf5 (q : number) : Prop := exists n : Z, q == 5 * inject_Z n.

(** [n] firings of the one-second interval. *)
Definition seconds (n : nat) (s : GameState.t) : GameState.t :=
  Nat.iter n timerCallback s.

Definition isClearDoublePoints (t : Timeout) : bool :=
  match t with clearDoublePoints => true | clearInvincible => false end.

(** The boosts among the collected items: each arms one timeout. *)
Definition isBoost (c : Collectible.t) : bool :=
  match Collectible.type c with token => false | _ => true end.

(** ** The difficulty multiplier in double precision

    The code computes on IEEE doubles.  Where a statement depends on the
    rounding, the function is modelled a second time on Rocq's binary64
    floats, operation by operation. *)

Module Double.
Import PrimFloat.

Definition two52 : float := 0x1p52%float.

(** The double that the literal [0.2] of the source denotes. *)
Definition fifth : float := 0x1.999999999999ap-3%float.

(** [Math.floor] on doubles.  From [2^52] on every double is an integer;
    below, adding and subtracting [2^52] rounds to the nearest integer and
    one is subtracted when that went up.  [NaN] and the zeros are returned
    as they are. *)
Definition Math_floor (x : float) : float :=
  if leb two52 (abs x) then x
  else if eqb x 0%float then x
  else
    let t := if ltb x 0%float
             then add (sub x two52) two52
             else sub (add x two52) two52 in
    if ltb x t then sub t 1%float else t.

Definition getDifficultyMultiplier (score : float) : float :=
  add 1%float (mul (Math_floor (div score 100%float)) fifth).

(** The double of a natural number (exact below [2^53]). *)
Fixpoint ofNat (n : nat) : float :=
  match n with
  | O => 0%float
  | S n' => add (ofNat n') 1%float
  end.

(** The multiplier at score [100 k]. *)
Definition atLevel (k : nat) : float :=
  getDifficultyMultiplier (mul 100%float (ofNat k)).

(** The step of the multiplier from score [100 k] to score [100 (k + 1)]
    is positive and within [2^-43] (about 1.1e-13) of the double 0.2. *)
Definition stepNearFifth (k : nat) : bool :=
  ltb (atLevel k) (atLevel (S k))
  && ltb (abs (sub (sub (atLevel (S k)) (atLevel k)) fifth)) 0x1p-43%float.

(** The step is the double 0.2 itself, in either reading of the words. *)
Definition stepIsFifth (k : nat) : bool :=
  eqb (atLevel (S k)) (add (atLevel k) fifth)
  || eqb (sub (atLevel (S k)) (atLevel k)) fifth.

End Double.

(** ** The restart button as it is clicked

    The button sits inside the container whose [onClick] is
    [handleInteraction], and nothing stops the propagation: a click runs
    [restartGame] and then the jump. *)
Definition clickPlayAgain (w : World) : World :=
  dispatch Interaction (dispatch PlayAgain w).

(** The session of [crowdedState] for a player who already has double
    points. *)
Definition boostedCrowdedState : GameState.t :=
  GameState_with_player crowdedState (Player_with_flags initialPlayer false true).

(** * Properties *)

(** ** Comparisons and [Math.floor] *)

Lemma Qltb_lt (a b : number) : (a <? b) = true <-> a < b.
Proof.
  unfold Qltb. rewrite negb_true_iff. split.
  - intros E. apply Qnot_le_lt. intros L. apply Qle_bool_iff in L. congruence.
  - intros L. destruct (Qle_bool b a) eqn:E; [|reflexivity].
    apply Qle_bool_iff in E. lra.
Qed.

Lemma Qltb_ge (a b : number) : (a <? b) = false <-> b <= a.
Proof.
  unfold Qltb. rewrite negb_false_iff. apply Qle_bool_iff.
Qed.

Lemma Qgtb_gt (a b : number) : (a >? b) = true <-> b < a.
Proof. apply Qltb_lt. Qed.

Lemma Qgtb_le (a b : number) : (a >? b) = false <-> a <= b.
Proof. apply Qltb_ge. Qed.

Lemma Qleb_gt (a b : number) : (a <=? b) = false <-> b < a.
Proof.
  split.
  - intros E. apply Qnot_le_lt. intros L. apply Qle_bool_iff in L. congruence.
  - intros L. destruct (a <=? b) eqn:E; [|reflexivity].
    apply Qle_bool_iff in E. lra.
Qed.

(** [Math.floor] is characterised by the unit band its argument lies in. *)
Lemma Qfloor_band (a : number) (k : Z) :
  inject_Z k <= a -> a < inject_Z (k + 1) -> Qfloor a = k.
Proof.
  intros Hlo Hhi.
  pose proof (Qfloor_le a) as Hf. pose proof (Qlt_floor a) as Hg.
  assert (inject_Z (Qfloor a) < inject_Z (k + 1)) as H1 by lra.
  assert (inject_Z k < inject_Z (Qfloor a + 1)) as H2 by lra.
  rewrite <- Zlt_Qlt in H1, H2. lia.
Qed.

Lemma hundreds_band (s : number) (k : Z) :
  100 * inject_Z k <= s -> s < 100 * inject_Z (k + 1) -> Qfloor (s / 100) = k.
Proof.
  intros Hlo Hhi.
  assert (s == 100 * (s / 100)) as E by (field; discriminate).
  apply Qfloor_band; lra.
Qed.

Lemma multiplier_on_band (s : number) (k : Z) :
  100 * inject_Z k <= s -> s < 100 * inject_Z (k + 1) ->
  getDifficultyMultiplier s == 1 + inject_Z k * 0.2.
Proof.
  intros Hlo Hhi. unfold getDifficultyMultiplier, Math_floor.
  rewrite (hundreds_band s k Hlo Hhi). reflexivity.
Qed.

Lemma multiplier_monotone (s s' : number) :
  s <= s' -> getDifficultyMultiplier s <= getDifficultyMultiplier s'.
Proof.
  intros Hle. unfold getDifficultyMultiplier, Math_floor.
  assert (s == 100 * (s / 100)) as E by (field; discriminate).
  assert (s' == 100 * (s' / 100)) as E' by (field; discriminate).
  assert (Qfloor (s / 100) <= Qfloor (s' / 100))%Z as Hf
    by (apply Qfloor_resp_le; lra).
  rewrite Zle_Qle in Hf. lra.
Qed.

Lemma multiplier_ge_1 (s : number) : 0 <= s -> 1 <= getDifficultyMultiplier s.
Proof.
  intros Hs. pose proof (multiplier_monotone 0 s Hs) as H.
  assert (getDifficultyMultiplier 0 == 1) as E by reflexivity. lra.
Qed.

(** ** Difficulty model *)

(** C6 (the claim fails as stated).  On the doubles of the code the
    multiplier does not grow by exactly 0.2 at every multiple of 100: at
    score 300 it is 1.6000000000000001, neither the multiplier at 200 plus
    0.2 (1.5999999999999999) nor 0.2 above it (the difference is
    0.20000000000000018), and likewise at scores 800 and 900. *)
Lemma multiplier_step_not_exact_on_doubles :
  Double.stepIsFifth 2 = false
  /\ PrimFloat.eqb (Double.getDifficultyMultiplier (Double.ofNat 300))
                   (PrimFloat.add (Double.getDifficultyMultiplier (Double.ofNat 200))
                                  Double.fifth) = false
  /\ PrimFloat.eqb (PrimFloat.sub (Double.getDifficultyMultiplier (Double.ofNat 300))
                                  (Double.getDifficultyMultiplier (Double.ofNat 200)))
                   Double.fifth = false
  /\ Double.stepIsFifth 7 = false
  /\ Double.stepIsFifth 8 = false.
Proof. repeat split; vm_compute; reflexivity. Qed.

Lemma steps_near_fifth_checked :
  forallb Double.stepNearFifth (seq 0 1000) = true.
Proof. vm_compute. reflexivity. Qed.

(** C6 (amended).  For a score [s >= 0] the multiplier is
    [1 + floor(s / 100) * 0.2]; it never decreases when the score grows; on
    the band [[100 k, 100 (k + 1))] it is the constant [1 + 0.2 k], and at
    the next multiple of 100 it is strictly larger.  The increase there is
    0.2 only up to the rounding of the doubles: for the scores up to 100000
    the step computed on doubles is positive and within [2^-43] of 0.2. *)
Theorem difficulty_multiplier_step_function (s : number) (Hs : 0 <= s) :
  getDifficultyMultiplier s == 1 + inject_Z (Qfloor (s / 100)) * 0.2
  /\ (0 <= Qfloor (s / 100))%Z
  /\ (forall s' : number, s <= s' ->
        getDifficultyMultiplier s <= getDifficultyMultiplier s')
  /\ (forall k : Z,
        100 * inject_Z k <= s -> s < 100 * inject_Z (k + 1) ->
        getDifficultyMultiplier s == 1 + inject_Z k * 0.2
        /\ getDifficultyMultiplier s
           < getDifficultyMultiplier (100 * inject_Z (k + 1)))
  /\ (forall k : nat, (k < 1000)%nat -> Double.stepNearFifth k = true).
Proof.
  split; [reflexivity|]. split; [|split; [|split]].
  - change 0%Z with (Qfloor 0). apply Qfloor_resp_le.
    assert (s == 100 * (s / 100)) as E by (field; discriminate). lra.
  - intros s'. apply multiplier_monotone.
  - intros k Hlo Hhi. split.
    + apply multiplier_on_band; assumption.
    + rewrite (multiplier_on_band s k Hlo Hhi).
      rewrite (multiplier_on_band (100 * inject_Z (k + 1)) (k + 1)).
      * rewrite inject_Z_plus. change (inject_Z 1) with 1. lra.
      * lra.
      * rewrite (inject_Z_plus (k + 1) 1). change (inject_Z 1) with 1. lra.
  - intros k Hk. pose proof steps_near_fifth_checked as Hall.
    rewrite forallb_forall in Hall. apply Hall. apply in_seq. lia.
Qed.

Lemma difficulty_multiplier_step_function_witness :
  0 <= 250
  /\ getDifficultyMultiplier 250 == 1.4
  /\ getDifficultyMultiplier 250 < getDifficultyMultiplier 300
  /\ Double.stepNearFifth 2 = true.
Proof.
  assert (0 <= 250) as Hs by discriminate.
  split; [exact Hs|].
  pose proof (difficulty_multiplier_step_function 250 Hs)
    as (_ & _ & _ & Hband & Hstep).
  destruct (Hband 2%Z) as [Hval Hup]; [discriminate | reflexivity |].
  split; [rewrite Hval; reflexivity|]. split; [exact Hup|].
  apply Hstep. lia.
Defined.

(** ** The collision resolver, step by step *)

Section Resolver.

Variable player : Player.t.

Lemma filterWith_cons {A S : Type} (f : A -> S -> bool * S) (a : A)
    (xs : list A) (s : S) :
  filterWith f (a :: xs) s
  = (if fst (f a s) then a :: fst (filterWith f xs (snd (f a s)))
     else fst (filterWith f xs (snd (f a s))),
     snd (filterWith f xs (snd (f a s)))).
Proof.
  simpl. destruct (f a s) as [keep s1]. simpl.
  destruct (filterWith f xs s1) as [rest s2]. reflexivity.
Qed.

(** One call of the filter callback. *)
Lemma collectCallback_effect (c : Collectible.t) (l : Locals) :
  let r := collectCallback player c l in
  let hit := hasCollided player c in
  fst r = negb hit
  /\ newScore (snd r) = (if hit then newScore l + scoreOf player c else newScore l)
  /\ timeBonus (snd r) = (if hit then timeBonus l + bonusOf c else timeBonus l)
  /\ isInvincible (snd r) = isInvincible l || (hit && isType diamondHands c)
  /\ hasDoublePoints (snd r) = hasDoublePoints l || (hit && isType moonRocket c)
  /\ armedNow (snd r) = armedNow l ++ (if hit then expiryOf c else []).
Proof.
  unfold collectCallback, scoreOf, bonusOf, isType, expiryOf.
  destruct (hasCollided player c); cbn [fst snd negb andb].
  - destruct (Collectible.type c); cbn;
      rewrite ?orb_true_r, ?orb_false_r, ?app_nil_r; repeat split.
  - cbn. rewrite !orb_false_r, app_nil_r. repeat split.
Qed.

(** What the effectful filter leaves in the locals, as sums and
    disjunctions over the collected items. *)
Lemma filterWith_collect (cs : list Collectible.t) : forall l : Locals,
  let r := filterWith (collectCallback player) cs l in
  fst r = filter (fun c => negb (hasCollided player c)) cs
  /\ newScore (snd r) == newScore l + sumOver (scoreOf player) (collected player cs)
  /\ timeBonus (snd r) == timeBonus l + sumOver bonusOf (collected player cs)
  /\ isInvincible (snd r)
     = isInvincible l || existsb (isType diamondHands) (collected player cs)
  /\ hasDoublePoints (snd r)
     = hasDoublePoints l || existsb (isType moonRocket) (collected player cs)
  /\ armedNow (snd r) = armedNow l ++ flat_map expiryOf (collected player cs).
Proof.
  induction cs as [|c cs' IH]; intros l.
  - cbn. repeat split; try ring.
    + now rewrite orb_false_r.
    + now rewrite orb_false_r.
    + now rewrite app_nil_r.
  - cbn zeta. rewrite filterWith_cons. cbn [fst snd].
    destruct (collectCallback_effect c l) as (Ek & Es & Et & Ei & Ed & Ea).
    cbn zeta in Ek, Es, Et, Ei, Ed, Ea.
    destruct (IH (snd (collectCallback player c l)))
      as (Hr & Hs & Ht & Hi & Hd & Ha).
    cbn zeta in Hr, Hs, Ht, Hi, Hd, Ha.
    rewrite Hs, Ht, Hi, Hd, Ha, Hr, Ek, Es, Et, Ei, Ed, Ea.
    unfold collected. cbn [filter].
    destruct (hasCollided player c);
      cbn [negb andb sumOver fold_right existsb flat_map];
      rewrite ?orb_false_r, ?app_nil_r, <- ?orb_assoc, <- ?app_assoc;
      repeat split; unfold sumOver; try ring.
Qed.

End Resolver.

(** The overlap test only reads the player's box. *)
Lemma hasCollided_flags {B : Type} `{GameObject B} (p : Player.t) (i d : bool) (b : B) :
  hasCollided (Player_with_flags p i d) b = hasCollided p b.
Proof. reflexivity. Qed.

(** [checkCollisions], field by field. *)
Lemma checkCollisions_fields (state : GameState.t) :
  let p := GameState.player state in
  let got := collected p (GameState.collectibles state) in
  let r := fst (checkCollisions state) in
  GameState.collectibles r
    = filter (fun c => negb (hasCollided p c)) (GameState.collectibles state)
  /\ GameState.obstacles r = GameState.obstacles state
  /\ GameState.score r
     == GameState.score state
        + sumOver (fun c => updateScore (Collectible.type c) (Player.hasDoublePoints p)) got
  /\ GameState.timeLeft r
     == GameState.timeLeft state + sumOver (fun c => TIME_BONUS (Collectible.type c)) got
  /\ GameState.player r
     = Player_with_flags p
         (Player.isInvincible p || existsb (isType diamondHands) got)
         (Player.hasDoublePoints p || existsb (isType moonRocket) got)
  /\ GameState.isGameOver r
     = (existsb (hasCollided p) (GameState.obstacles state)
        && negb (Player.isInvincible p || existsb (isType diamondHands) got))
       || (GameState.timeLeft state <=? 0)
  /\ GameState.isPaused r = GameState.isPaused state
  /\ snd (checkCollisions state) = flat_map expiryOf got.
Proof.
  cbn zeta. unfold checkCollisions.
  match goal with
  | |- context [filterWith _ _ ?l0] =>
      pose proof (filterWith_collect (GameState.player state)
                    (GameState.collectibles state) l0) as F
  end.
  cbn zeta in F.
  destruct (filterWith _ _ _) as [rest l] eqn:E.
  cbn [fst snd newScore timeBonus isInvincible hasDoublePoints armedNow app] in F.
  destruct F as (Hr & Hs & Ht & Hi & Hd & Ha).
  unfold scoreOf in Hs. unfold bonusOf in Ht.
  cbn [fst snd GameState.collectibles GameState.obstacles GameState.score
       GameState.timeLeft GameState.player GameState.isGameOver GameState.isPaused].
  rewrite Hi, Hd, Ha, Hr. repeat split.
  - rewrite Hs. reflexivity.
  - rewrite Ht. ring.
Qed.

(** ** The tick, step by step *)

Lemma movedState_fields (deltaTime : number) (prev : GameState.t) (g : rng) :
  let m := movedState deltaTime prev g in
  GameState.player m = newPlayer prev
  /\ GameState.score m = GameState.score prev
  /\ GameState.timeLeft m = GameState.timeLeft prev
  /\ GameState.isGameOver m = GameState.isGameOver prev
  /\ GameState.isPaused m = GameState.isPaused prev
  /\ (exists spawned : list Collectible.t,
        GameState.collectibles m
        = scrollCollectibles (horizontalMove deltaTime (GameState.score prev))
            (GameState.collectibles prev) ++ spawned
        /\ (spawned = [] \/ exists g' : rng, spawned = [fst (spawnCollectible g')]))
  /\ (exists spawned : list Obstacle.t,
        GameState.obstacles m
        = scrollObstacles (obstacleMove deltaTime (GameState.score prev))
            (GameState.obstacles prev) ++ spawned
        /\ (spawned = [] \/ exists g' : rng, spawned = [fst (spawnObstacle g')])).
Proof.
  cbn zeta. unfold movedState, newState, bind, ret, Math_random.
  destruct (g 0%nat <? _); destruct (g 1%nat <? _);
    repeat match goal with
    | |- context [spawnCollectible ?g2] =>
        let E := fresh "Ec" in destruct (spawnCollectible g2) as [c gc] eqn:E
    | |- context [spawnObstacle ?g2] =>
        let E := fresh "Eo" in destruct (spawnObstacle g2) as [o go] eqn:E
    end;
    cbn -[spawnCollectible spawnObstacle scrollCollectibles scrollObstacles newPlayer];
    repeat split; eexists; (split; [reflexivity|]);
    try (left; reflexivity);
    match goal with
    | Ec : spawnCollectible ?g2 = (?c, _) |- _ \/ (exists _, [?c] = _) =>
        right; exists g2; rewrite Ec; reflexivity
    | Eo : spawnObstacle ?g2 = (?o, _) |- _ \/ (exists _, [?o] = _) =>
        right; exists g2; rewrite Eo; reflexivity
    end.
Qed.

Lemma tick_playing (deltaTime : number) (prev : GameState.t) (g : rng) :
  playing prev ->
  tickState deltaTime prev g = fst (checkCollisions (movedState deltaTime prev g)).
Proof.
  intros [Ho Hp]. unfold tickState, tick, movedState, bind, ret.
  rewrite Ho, Hp. cbn [orb]. destruct (newState deltaTime prev g). reflexivity.
Qed.

Lemma tick_idle (deltaTime : number) (prev : GameState.t) (g : rng) :
  GameState.isGameOver prev || GameState.isPaused prev = true ->
  tick deltaTime prev g = (prev, [], g).
Proof.
  intros H. unfold tick, ret. rewrite H. reflexivity.
Qed.

(** ** Physics integrator *)

Ltac reflect_cmp :=
  repeat match goal with
  | H : (_ <? _) = true |- _ => apply Qltb_lt in H
  | H : (_ <? _) = false |- _ => apply Qltb_ge in H
  | H : (_ >? _) = true |- _ => apply Qgtb_gt in H
  | H : (_ >? _) = false |- _ => apply Qgtb_le in H
  | H : (_ <=? _) = true |- _ => apply Qle_bool_iff in H
  | H : (_ <=? _) = false |- _ => apply Qleb_gt in H
  end.

Lemma newPlayer_cases (prev : GameState.t) :
  let p := GameState.player prev in
  let v1 := Player.velocity p + 0.3 in
  let y1 := Player.y p + v1 in
  let p' := newPlayer prev in
  (0 <= Player.y p' /\ Player.y p' <= 560)
  /\ (560 < y1 -> Player.y p' == 560 /\ Player.velocity p' == 0)
  /\ (y1 < 0 -> Player.y p' == 0 /\ 0 <= Player.velocity p'
               /\ Player.velocity p' == Qmax 0 v1)
  /\ (0 <= y1 -> y1 <= 560 -> Player.y p' == y1 /\ Player.velocity p' == v1)
  /\ Player.x p' = Player.x p /\ Player.width p' = Player.width p
  /\ Player.height p' = Player.height p
  /\ Player.isInvincible p' = Player.isInvincible p
  /\ Player.hasDoublePoints p' = Player.hasDoublePoints p.
Proof.
  cbn zeta. unfold newPlayer, Player_with_y_velocity, Math_max,
    BASE_GAME_HEIGHT, PLAYER_SIZE, GRAVITY.
  cbn [Player.y Player.velocity Player.x Player.width Player.height
       Player.isInvincible Player.hasDoublePoints].
  set (v1 := Player.velocity (GameState.player prev) + 0.3).
  set (y1 := Player.y (GameState.player prev) + v1).
  destruct (y1 >? 600 - 40) eqn:E1;
    cbn [Player.y Player.velocity Player.x Player.width Player.height
         Player.isInvincible Player.hasDoublePoints].
  - destruct (600 - 40 <? 0) eqn:E2; reflect_cmp; [lra|].
    cbn [Player.y Player.velocity Player.x Player.width Player.height
         Player.isInvincible Player.hasDoublePoints].
    repeat split; intros; try lra.
  - destruct (y1 <? 0) eqn:E2; reflect_cmp;
      cbn [Player.y Player.velocity Player.x Player.width Player.height
           Player.isInvincible Player.hasDoublePoints];
      repeat split; intros; try lra; try reflexivity.
    apply Q.le_max_l.
Qed.

(** C5. On every tick evaluated in the Playing state the player's [y] after
    integration ([velocity += 0.3; y += velocity]) lies in [[0, 560]];
    a clamp to the ceiling 560 zeroes the velocity, a clamp to 0 leaves the
    velocity [max(0, velocity)], hence non-negative; without a clamp the
    integrated values are kept. *)
Theorem player_stays_in_playfield (deltaTime : number) (prev : GameState.t)
    (g : rng) (Hplay : playing prev) :
  let p := GameState.player prev in
  let v1 := Player.velocity p + GRAVITY in
  let y1 := Player.y p + v1 in
  let p' := GameState.player (tickState deltaTime prev g) in
  (0 <= Player.y p' /\ Player.y p' <= BASE_GAME_HEIGHT - PLAYER_SIZE)
  /\ BASE_GAME_HEIGHT - PLAYER_SIZE == 560
  /\ (560 < y1 -> Player.y p' == 560 /\ Player.velocity p' == 0)
  /\ (y1 < 0 -> Player.y p' == 0 /\ 0 <= Player.velocity p'
               /\ Player.velocity p' == Math_max 0 v1)
  /\ (0 <= y1 -> y1 <= 560 -> Player.y p' == y1 /\ Player.velocity p' == v1).
Proof.
  cbn zeta. rewrite (tick_playing deltaTime prev g Hplay).
  destruct (checkCollisions_fields (movedState deltaTime prev g))
    as (_ & _ & _ & _ & Hp & _).
  cbn zeta in Hp. rewrite Hp.
  destruct (movedState_fields deltaTime prev g) as (Hm & _).
  cbn zeta in Hm. rewrite Hm.
  unfold Player_with_flags. cbn [Player.y Player.velocity].
  destruct (newPlayer_cases prev) as ((H0 & H1) & H2 & H3 & H4 & _).
  cbn zeta in H0, H1, H2, H3, H4.
  unfold BASE_GAME_HEIGHT, PLAYER_SIZE, GRAVITY, Math_max.
  split; [split; [assumption | lra]|].
  split; [lra|].
  split; [exact H2|]. split; [exact H3 | exact H4].
Qed.

Lemma player_stays_in_playfield_witness :
  playing initialGameState
  /\ 0 <= Player.y (GameState.player (tickState 17 initialGameState (constTape 0.5)))
  /\ Player.y (GameState.player (tickState 17 initialGameState (constTape 0.5)))
     <= BASE_GAME_HEIGHT - PLAYER_SIZE.
Proof.
  assert (playing initialGameState) as Hplay by (split; reflexivity).
  split; [exact Hplay|].
  exact (proj1 (player_stays_in_playfield 17 initialGameState (constTape 0.5) Hplay)).
Defined.

(** ** One evaluated tick in the Playing state *)

Lemma hasCollided_overlaps {B : Type} `{GameObject B} (p : Player.t) (b : B) :
  hasCollided p b = true <-> overlaps p b.
Proof.
  unfold hasCollided, overlaps. rewrite !andb_true_iff, !Qltb_lt, !Qgtb_gt.
  tauto.
Qed.

Lemma tick_fields (deltaTime : number) (prev : GameState.t) (g : rng) :
  playing prev ->
  let moved := movedState deltaTime prev g in
  let post := tickState deltaTime prev g in
  let p := GameState.player moved in
  let got := collected p (GameState.collectibles moved) in
  GameState.collectibles post
    = filter (fun c => negb (hasCollided p c)) (GameState.collectibles moved)
  /\ GameState.obstacles post = GameState.obstacles moved
  /\ GameState.score post
     == GameState.score prev
        + sumOver (fun c => updateScore (Collectible.type c)
                              (Player.hasDoublePoints (GameState.player prev))) got
  /\ GameState.timeLeft post
     == GameState.timeLeft prev + sumOver (fun c => TIME_BONUS (Collectible.type c)) got
  /\ GameState.player post
     = Player_with_flags p
         (Player.isInvincible (GameState.player prev)
          || existsb (isType diamondHands) got)
         (Player.hasDoublePoints (GameState.player prev)
          || existsb (isType moonRocket) got)
  /\ GameState.isGameOver post
     = (existsb (hasCollided p) (GameState.obstacles moved)
        && negb (Player.isInvincible (GameState.player prev)
                 || existsb (isType diamondHands) got))
       || (GameState.timeLeft prev <=? 0)
  /\ GameState.isPaused post = false
  /\ p = newPlayer prev.
Proof.
  intros Hplay. cbn zeta. rewrite (tick_playing deltaTime prev g Hplay).
  destruct (checkCollisions_fields (movedState deltaTime prev g))
    as (Hc & Ho & Hs & Ht & Hp & Hg & Hz & _).
  destruct (movedState_fields deltaTime prev g)
    as (Mp & Ms & Mt & Mg & Mz & _).
  cbn zeta in *.
  destruct (newPlayer_cases prev) as (_ & _ & _ & _ & _ & _ & _ & Ni & Nd).
  cbn zeta in Ni, Nd.
  rewrite Mp in Hs, Hp, Hg. rewrite Ni in Hp, Hg. rewrite Nd in Hs, Hp.
  rewrite Ms in Hs. rewrite Mt in Ht, Hg. rewrite Mz in Hz.
  rewrite Mp in Hc |- *. rewrite Mp in Ht.
  destruct Hplay as [_ Hpa].
  repeat split; try assumption; congruence.
Qed.

(** ** Fatal condition *)


(** ** Collection *)

Lemma kept_iff (p : Player.t) (cs : list Collectible.t) (c : Collectible.t) :
  In c (filter (fun c => negb (hasCollided p c)) cs) <-> In c cs /\ ~ overlaps p c.
Proof.
  rewrite filter_In, negb_true_iff, <- hasCollided_overlaps.
  destruct (hasCollided p c); intuition congruence.
Qed.

Lemma collected_iff (p : Player.t) (cs : list Collectible.t) (c : Collectible.t) :
  In c (collected p cs) <-> In c cs /\ overlaps p c.
Proof.
  unfold collected. now rewrite filter_In, hasCollided_overlaps.
Qed.

Lemma updateScore_values (k : CollectibleType) (dbl : bool) :
  updateScore k dbl == SCORE_VALUES k * (if dbl then 2 else 1).
Proof. reflexivity. Qed.

(** C2. In a tick evaluated in the Playing state, with [moved] the snapshot
    after movement: the collectibles left are those of [moved] whose box
    does not overlap the player's, in their order; the score grows by the
    sum, over all the overlapping ones, of [SCORE_VALUES] times 2 with
    double points (as the player had them before the tick) and times 1
    without; the time left grows by the sum of their [TIME_BONUS].  When the
    one overlapping collectible is a token the score grows by exactly 10
    without double points and exactly 20 with. *)
Theorem collectibles_all_honored (deltaTime : number) (prev : GameState.t)
    (g : rng) (Hplay : playing prev) :
  let moved := movedState deltaTime prev g in
  let post := tickState deltaTime prev g in
  let p := GameState.player moved in
  let dbl := Player.hasDoublePoints p in
  let got := collected p (GameState.collectibles moved) in
  (forall c : Collectible.t,
     In c got <-> In c (GameState.collectibles moved) /\ overlaps p c)
  /\ (forall c : Collectible.t,
        In c (GameState.collectibles post)
        <-> In c (GameState.collectibles moved) /\ ~ overlaps p c)
  /\ GameState.collectibles post
     = filter (fun c => negb (hasCollided p c)) (GameState.collectibles moved)
  /\ GameState.score post
     == GameState.score prev
        + sumOver (fun c => SCORE_VALUES (Collectible.type c)
                            * (if dbl then 2 else 1)) got
  /\ GameState.timeLeft post
     == GameState.timeLeft prev
        + sumOver (fun c => TIME_BONUS (Collectible.type c)) got
  /\ (forall c : Collectible.t,
        got = [c] -> Collectible.type c = token ->
        GameState.score post
        == GameState.score prev + (if dbl then 20 else 10)).
Proof.
  cbn zeta.
  destruct (tick_fields deltaTime prev g Hplay)
    as (Hc & _ & Hs & Ht & _ & _ & _ & Hn).
  cbn zeta in *.
  destruct (newPlayer_cases prev) as (_ & _ & _ & _ & _ & _ & _ & _ & Nd).
  cbn zeta in Nd. rewrite <- Hn in Nd.
  split; [intros c; apply collected_iff|].
  split; [intros c; rewrite Hc; apply kept_iff|].
  split; [exact Hc|].
  rewrite Nd.
  split; [exact Hs|]. split; [exact Ht|].
  intros c Hgot Hty. rewrite Hs, Hgot. cbn [sumOver fold_right].
  rewrite Hty. destruct (Player.hasDoublePoints (GameState.player prev));
    cbv beta iota zeta delta [updateScore SCORE_VALUES]; ring.
Qed.

(** C10. Every contribution to the score of a tick is [SCORE_VALUES] of
    the collected kind, doubled exactly when the player had double points
    before the tick: the flag a [moonRocket] arms in the tick never counts
    for that tick.  In particular, when a token and a [moonRocket] are
    collected in one tick, in either order, a player without double points
    gets 10 for the token and 15 for the rocket, a player who had double
    points gets 20 and 30, and in both cases the tick leaves the flag
    armed. *)
Theorem same_tick_boost_not_applied (deltaTime : number) (prev : GameState.t)
    (g : rng) (Hplay : playing prev) :
  let moved := movedState deltaTime prev g in
  let post := tickState deltaTime prev g in
  let got := collected (GameState.player moved) (GameState.collectibles moved) in
  let before := Player.hasDoublePoints (GameState.player prev) in
  GameState.score post
  == GameState.score prev
     + sumOver (fun c => updateScore (Collectible.type c) before) got
  /\ GameState.score post
     == GameState.score prev
        + sumOver (fun c => SCORE_VALUES (Collectible.type c)
                            * (if before then 2 else 1)) got
  /\ (forall c1 c2 : Collectible.t,
        got = [c1; c2] ->
        (Collectible.type c1 = token /\ Collectible.type c2 = moonRocket)
        \/ (Collectible.type c1 = moonRocket /\ Collectible.type c2 = token) ->
        (before = false ->
           GameState.score post == GameState.score prev + 10 + 15)
        /\ (before = true ->
              GameState.score post == GameState.score prev + 20 + 30)
        /\ Player.hasDoublePoints (GameState.player post) = true).
Proof.
  cbn zeta.
  destruct (tick_fields deltaTime prev g Hplay)
    as (_ & _ & Hs & _ & Hp & _).
  cbn zeta in *.
  split; [exact Hs|]. split; [exact Hs|].
  intros c1 c2 Hgot Hty. rewrite Hs, Hp, Hgot.
  cbn [sumOver fold_right existsb Player_with_flags Player.hasDoublePoints].
  unfold isType.
  destruct Hty as [[H1 H2]|[H1 H2]]; rewrite H1, H2;
    (split; [|split]);
    try (intros Hb; rewrite Hb;
         cbv beta iota zeta delta [updateScore SCORE_VALUES]; ring);
    rewrite ?orb_true_r; reflexivity.
Qed.

(** ** Scroller *)

Lemma moves_positive (deltaTime score : number) :
  16 < deltaTime -> 0 <= score ->
  0 < horizontalMove deltaTime score /\ 0 < obstacleMove deltaTime score.
Proof.
  intros Hd Hs. pose proof (multiplier_ge_1 score Hs) as Hm.
  unfold horizontalMove, obstacleMove, getSpeeds, horizontal, obstacle,
    BASE_HORIZONTAL_SPEED, BASE_OBSTACLE_SPEED.
  set (m := getDifficultyMultiplier score) in *.
  assert (1 < deltaTime / 16) as Ht.
  { assert (deltaTime == 16 * (deltaTime / 16)) as E by (field; discriminate). lra. }
  split; nra.
Qed.

(** The culled entities are those with [x <= -40]; each survivor is the
    same entity moved left by [move]. *)
Lemma scrollCollectibles_survivors (move : number) (cs : list Collectible.t) :
  0 < move ->
  Forall2 (fun c c' => c' = Collectible_with_x c (Collectible.x c - move)
                       /\ Collectible.x c' < Collectible.x c)
          (filter (fun c => negb (Collectible.x c <=? -40)) cs)
          (scrollCollectibles move cs).
Proof.
  intros Hm. unfold scrollCollectibles.
  change (fun c : Collectible.t => Collectible.x c >? - PLAYER_SIZE)
    with (fun c : Collectible.t => negb (Collectible.x c <=? -40)).
  induction (filter _ cs) as [|c l IH]; cbn [map]; constructor; [|exact IH].
  split; [reflexivity|]. cbn [Collectible_with_x Collectible.x]. lra.
Qed.

Lemma scrollObstacles_survivors (move : number) (os : list Obstacle.t) :
  0 < move ->
  Forall2 (fun o o' => o' = Obstacle_with_x o (Obstacle.x o - move)
                       /\ Obstacle.x o' < Obstacle.x o)
          (filter (fun o => negb (Obstacle.x o <=? -40)) os)
          (scrollObstacles move os).
Proof.
  intros Hm. unfold scrollObstacles.
  change (fun o : Obstacle.t => Obstacle.x o >? - PLAYER_SIZE)
    with (fun o : Obstacle.t => negb (Obstacle.x o <=? -40)).
  induction (filter _ os) as [|o l IH]; cbn [map]; constructor; [|exact IH].
  split; [reflexivity|]. cbn [Obstacle_with_x Obstacle.x]. lra.
Qed.

(** What the scroll step of an active tick does, for both kinds of entity:
    the cull threshold is [-PLAYER_SIZE = -40] for obstacles too. *)
Lemma scroll_step (deltaTime : number) (prev : GameState.t) (g : rng) :
  playing prev -> 16 < deltaTime -> 0 <= GameState.score prev ->
  let moved := movedState deltaTime prev g in
  let post := tickState deltaTime prev g in
  (exists (scrolled spawned : list Collectible.t),
     GameState.collectibles moved = scrolled ++ spawned
     /\ (length spawned <= 1)%nat
     /\ Forall2 (fun c c' =>
                   c' = Collectible_with_x c
                          (Collectible.x c
                           - horizontalMove deltaTime (GameState.score prev))
                   /\ Collectible.x c' < Collectible.x c)
                (filter (fun c => negb (Collectible.x c <=? -40))
                        (GameState.collectibles prev))
                scrolled)
  /\ (exists (scrolled spawned : list Obstacle.t),
        GameState.obstacles post = scrolled ++ spawned
        /\ (length spawned <= 1)%nat
        /\ Forall2 (fun o o' =>
                      o' = Obstacle_with_x o
                             (Obstacle.x o
                              - obstacleMove deltaTime (GameState.score prev))
                      /\ Obstacle.x o' < Obstacle.x o)
                   (filter (fun o => negb (Obstacle.x o <=? -40))
                           (GameState.obstacles prev))
                   scrolled).
Proof.
  intros Hplay Hd Hs. cbn zeta.
  destruct (moves_positive deltaTime _ Hd Hs) as [Hh Ho].
  destruct (tick_fields deltaTime prev g Hplay) as (_ & Hob & _).
  cbn zeta in Hob. rewrite Hob.
  destruct (movedState_fields deltaTime prev g)
    as (_ & _ & _ & _ & _ & (sc & Ec & Hsc) & (so & Eo & Hso)).
  split.
  - eexists; exists sc. split; [exact Ec|]. split.
    + destruct Hsc as [->|[g' ->]]; cbn; lia.
    + apply scrollCollectibles_survivors. exact Hh.
  - eexists; exists so. split; [exact Eo|]. split.
    + destruct Hso as [->|[g' ->]]; cbn; lia.
    + apply scrollObstacles_survivors. exact Ho.
Qed.

(** C3 (evaluation of the code at an input where it departs from the
    claim).  After the frames of [lingeringFrames] the session is Playing
    and holds one obstacle, 60 wide, at [x = -50]: its box still reaches 10
    units into the playfield and [x <= -60] is false.  The next evaluated
    tick nevertheless removes it, because the cull of the obstacles compares
    [x] with [-PLAYER_SIZE = -40], the size of a collectible. *)
Theorem obstacle_culled_inside_playfield :
  map boxOfObstacle (GameState.obstacles (gameState lingeringWorld))
    = [(-50, 56, 60, 60)]
  /\ playing (gameState lingeringWorld)
  /\ Forall (fun o => ~ Obstacle.x o <= - Obstacle.width o
                      /\ 0 < Obstacle.x o + Obstacle.width o)
            (GameState.obstacles (gameState lingeringWorld))
  /\ GameState.obstacles
       (gameState (dispatch (AnimationFrame 4434) lingeringWorld)) = [].
Proof.
  split; [vm_compute; reflexivity|].
  split; [split; vm_compute; reflexivity|].
  split; [|vm_compute; reflexivity].
  assert (exists o, GameState.obstacles (gameState lingeringWorld) = [o]
                    /\ Obstacle.x o == -50 /\ Obstacle.width o == 60)
    as (o & -> & Hx & Hw).
  { eexists. split; [vm_compute; reflexivity|]. split; vm_compute; reflexivity. }
  constructor; [|constructor]. lra.
Qed.

(** ** Entity factory *)

Lemma pickType_In {T : Type} (types : list T) (default : T) (r : number) :
  types <> [] -> 0 <= r -> r < 1 -> In (pickType types default r) types.
Proof.
  intros Hne H0 H1. unfold pickType. apply nth_In.
  set (n := inject_Z (Z.of_nat (length types))).
  assert (0 < n) as Hn.
  { unfold n. change 0 with (inject_Z 0). rewrite <- Zlt_Qlt.
    destruct types; [congruence | cbn [length]; lia]. }
  assert (0 <= Qfloor (r * n))%Z as Hlo.
  { change 0%Z with (Qfloor 0). apply Qfloor_resp_le. nra. }
  assert (Qfloor (r * n) < Z.of_nat (length types))%Z as Hhi.
  { rewrite Zlt_Qlt. fold n. pose proof (Qfloor_le (r * n)). nra. }
  lia.
Qed.

(** What the two factories return on a tape that honours the contract of
    [Math.random]: both place the entity at [x = 800] with [y] the third
    draw scaled by [600 - 40 = 560]; only the sizes differ. *)
Lemma factory_ranges (g : rng) :
  unit_interval g ->
  let c := fst (spawnCollectible g) in
  let o := fst (spawnObstacle g) in
  (Collectible.x c == 800 /\ Collectible.y c == g 2%nat * 560
   /\ 0 <= Collectible.y c /\ Collectible.y c < 600 - Collectible.height c
   /\ Collectible.width c == 40 /\ Collectible.height c == 40
   /\ In (Collectible.type c) collectibleTypes)
  /\ (Obstacle.x o == 800 /\ Obstacle.y o == g 2%nat * 560
      /\ 0 <= Obstacle.y o /\ Obstacle.y o < 560
      /\ Obstacle.width o == 60 /\ Obstacle.height o == 60
      /\ In (Obstacle.type o) obstacleTypes).
Proof.
  intros Hg. cbn zeta.
  destruct (Hg 0%nat) as [A0 A1]. destruct (Hg 2%nat) as [B0 B1].
  unfold spawnCollectible, spawnObstacle, bind, ret, Math_random.
  cbn [fst Collectible.x Collectible.y Collectible.width Collectible.height
       Collectible.type Obstacle.x Obstacle.y Obstacle.width Obstacle.height
       Obstacle.type].
  unfold BASE_GAME_WIDTH, BASE_GAME_HEIGHT, PLAYER_SIZE.
  split; repeat split; try lra; try nra;
    apply pickType_In; try assumption; discriminate.
Qed.

(** C4 (evaluation of the code at an input where it departs from the
    claim).  With draws of 0.99, inside the range of [Math.random],
    [spawnObstacle] returns a 60 by 60 obstacle at [x = 800] and
    [y = 2772/5 = 554.4]: above the bound [600 - 60 = 540], with its lower edge at
    614.4, outside the playfield.  The range of [y] is computed from
    [PLAYER_SIZE], the size of a collectible, as in [spawnCollectible]. *)
Theorem spawned_obstacle_overhangs :
  unit_interval (constTape 0.99)
  /\ boxOfObstacle (fst (spawnObstacle (constTape 0.99))) = (800, 2772 # 5, 60, 60)
  /\ BASE_GAME_HEIGHT - Obstacle.height (fst (spawnObstacle (constTape 0.99)))
     < Obstacle.y (fst (spawnObstacle (constTape 0.99)))
  /\ BASE_GAME_HEIGHT
     < Obstacle.y (fst (spawnObstacle (constTape 0.99)))
       + Obstacle.height (fst (spawnObstacle (constTape 0.99))).
Proof.
  split; [intros n; unfold constTape; split; lra|].
  repeat split; vm_compute; reflexivity.
Qed.

(** ** Session invariants *)

Lemma sumOver_nonneg {A : Type} (f : A -> number) (xs : list A) :
  (forall a : A, 0 <= f a) -> 0 <= sumOver f xs.
Proof.
  intros Hf. induction xs as [|a xs IH]; cbn [sumOver fold_right].
  - lra.
  - specialize (Hf a). unfold sumOver in IH. lra.
Qed.

Lemma updateScore_nonneg (k : CollectibleType) (dbl : bool) : 0 <= updateScore k dbl.
Proof. destruct k, dbl; vm_compute; discriminate. Qed.

Lemma TIME_BONUS_nonneg (k : CollectibleType) : 0 <= TIME_BONUS k.
Proof. destruct k; vm_compute; discriminate. Qed.

Lemma tickState_idle (deltaTime : number) (prev : GameState.t) (g : rng) :
  GameState.isGameOver prev || GameState.isPaused prev = true ->
  tickState deltaTime prev g = prev.
Proof.
  intros H. unfold tickState. rewrite (tick_idle _ _ _ H). reflexivity.
Qed.

Lemma playing_or_idle (s : GameState.t) :
  playing s \/ GameState.isGameOver s || GameState.isPaused s = true.
Proof.
  unfold playing. destruct (GameState.isGameOver s), (GameState.isPaused s); auto.
Qed.

Lemma tick_timeLeft (deltaTime : number) (prev : GameState.t) (g : rng) :
  GameState.timeLeft prev <= GameState.timeLeft (tickState deltaTime prev g).
Proof.
  destruct (playing_or_idle prev) as [Hplay|Hidle].
  - destruct (tick_fields deltaTime prev g Hplay) as (_ & _ & _ & Ht & _).
    cbn zeta in Ht. rewrite Ht.
    match goal with
    | |- _ <= _ + sumOver ?f ?l =>
        pose proof (sumOver_nonneg f l (fun c => TIME_BONUS_nonneg _))
    end.
    lra.
  - rewrite (tickState_idle _ _ _ Hidle). lra.
Qed.

Lemma tick_score (deltaTime : number) (prev : GameState.t) (g : rng) :
  GameState.score prev <= GameState.score (tickState deltaTime prev g).
Proof.
  destruct (playing_or_idle prev) as [Hplay|Hidle].
  - destruct (tick_fields deltaTime prev g Hplay) as (_ & _ & Hs & _).
    cbn zeta in Hs. rewrite Hs.
    match goal with
    | |- _ <= _ + sumOver ?f ?l =>
        pose proof (sumOver_nonneg f l (fun c => updateScore_nonneg _ _))
    end.
    lra.
  - rewrite (tickState_idle _ _ _ Hidle). lra.
Qed.

Lemma gameLoop_gameState (timestamp : number) (w : World) :
  gameState (gameLoop timestamp w) = gameState w
  \/ exists deltaTime : number,
       16 < deltaTime
       /\ gameState (gameLoop timestamp w) = tickState deltaTime (gameState w) (tape w).
Proof.
  unfold gameLoop.
  set (dt := timestamp - (if Qeq_bool (lastTimeRef w) 0 then timestamp else lastTimeRef w)).
  destruct (dt >? 16) eqn:E.
  - right. exists dt. split; [now apply Qgtb_gt|].
    unfold tickState. destruct (tick dt (gameState w) (tape w)) as [[s' ts] g'].
    reflexivity.
  - left. reflexivity.
Qed.

Lemma timerCallback_timeLeft (s : GameState.t) :
  0 <= GameState.timeLeft (timerCallback s)
  /\ GameState.timeLeft (timerCallback s) <= Qmax 0 (GameState.timeLeft s)
  /\ GameState.score (timerCallback s) = GameState.score s.
Proof.
  unfold timerCallback, GameState_with_timeLeft, Math_max.
  cbn [GameState.timeLeft GameState.score].
  split; [apply Q.le_max_l|]. split; [|reflexivity].
  apply Q.max_le_compat_l. lra.
Qed.

Lemma runTimeout_frame (t : Timeout) (s : GameState.t) :
  GameState.timeLeft (runTimeout t s) = GameState.timeLeft s
  /\ GameState.score (runTimeout t s) = GameState.score s
  /\ GameState.isGameOver (runTimeout t s) = GameState.isGameOver s
  /\ GameState.isPaused (runTimeout t s) = GameState.isPaused s
  /\ GameState.collectibles (runTimeout t s) = GameState.collectibles s
  /\ GameState.obstacles (runTimeout t s) = GameState.obstacles s.
Proof. destruct t; repeat split. Qed.

(** Each event keeps the time left non-negative and the score non-negative. *)
Lemma dispatch_invariant (e : Event) (w : World) :
  0 <= GameState.timeLeft (gameState w) /\ 0 <= GameState.score (gameState w) ->
  0 <= GameState.timeLeft (gameState (dispatch e w))
  /\ 0 <= GameState.score (gameState (dispatch e w)).
Proof.
  intros [Ht Hs]. destruct e as [timestamp| | | |i]; cbn [dispatch].
  - destruct (gameLoop_gameState timestamp w) as [->|(dt & _ & ->)]; [auto|].
    pose proof (tick_timeLeft dt (gameState w) (tape w)).
    pose proof (tick_score dt (gameState w) (tape w)). split; lra.
  - destruct (timerRunning (gameState w)); [|auto].
    cbn [setGameState gameState].
    destruct (timerCallback_timeLeft (gameState w)) as (H0 & _ & E).
    rewrite E. auto.
  - cbn [setGameState gameState]. auto.
  - destruct (GameState.isGameOver (gameState w)); [|auto].
    cbn. split; discriminate.
  - destruct (nth_error (armed w) i) as [t|]; [|auto].
    cbn [gameState].
    destruct (runTimeout_frame t (gameState w)) as (E1 & E2 & _).
    rewrite E1, E2. auto.
Qed.

Lemma run_invariant (es : list Event) : forall w : World,
  0 <= GameState.timeLeft (gameState w) /\ 0 <= GameState.score (gameState w) ->
  0 <= GameState.timeLeft (gameState (run es w))
  /\ 0 <= GameState.score (gameState (run es w)).
Proof.
  unfold run. induction es as [|e es IH]; intros w Hw; cbn [fold_left].
  - exact Hw.
  - apply IH. apply dispatch_invariant. exact Hw.
Qed.

(** C7. The one-second callback leaves a time left that is never negative
    and does not touch the score; an evaluated tick never lowers the time
    left nor the score; so, along every run of the component from its
    initial state, the time left is never negative, and every event that
    reaches a session that is not over leaves the score at least as high. *)
Theorem timeLeft_nonneg_score_monotone :
  (forall s : GameState.t,
     0 <= GameState.timeLeft (timerCallback s)
     /\ GameState.score (timerCallback s) = GameState.score s)
  /\ (forall (deltaTime : number) (prev : GameState.t) (g : rng),
        GameState.timeLeft prev <= GameState.timeLeft (tickState deltaTime prev g)
        /\ GameState.score prev <= GameState.score (tickState deltaTime prev g))
  /\ (forall (es : list Event) (g : rng),
        0 <= GameState.timeLeft (gameState (run es (initialWorld g))))
  /\ (forall (e : Event) (w : World),
        GameState.isGameOver (gameState w) = false ->
        GameState.score (gameState w) <= GameState.score (gameState (dispatch e w))).
Proof.
  split; [|split; [|split]].
  - intros s. destruct (timerCallback_timeLeft s) as (H & _ & E). auto.
  - intros deltaTime prev g. split; [apply tick_timeLeft | apply tick_score].
  - intros es g. apply run_invariant. cbn. split; discriminate.
  - intros e w Hg. destruct e as [timestamp| | | |i]; cbn [dispatch].
    + destruct (gameLoop_gameState timestamp w) as [->|(dt & _ & ->)]; [lra|].
      apply tick_score.
    + destruct (timerRunning (gameState w)); [|lra].
      cbn [setGameState gameState].
      destruct (timerCallback_timeLeft (gameState w)) as (_ & _ & ->). lra.
    + cbn [setGameState gameState]. cbn. lra.
    + rewrite Hg. lra.
    + destruct (nth_error (armed w) i) as [t|]; [|lra].
      cbn [gameState].
      destruct (runTimeout_frame t (gameState w)) as (_ & -> & _). lra.
Qed.

(** ** Paused and game-over sessions *)

Lemma gameLoop_idle (timestamp : number) (w : World) :
  GameState.isGameOver (gameState w) || GameState.isPaused (gameState w) = true ->
  gameState (gameLoop timestamp w) = gameState w
  /\ tape (gameLoop timestamp w) = tape w
  /\ armed (gameLoop timestamp w) = armed w.
Proof.
  intros Hidle. unfold gameLoop.
  destruct (_ >? 16).
  - rewrite (tick_idle _ _ _ Hidle). cbn. now rewrite app_nil_r.
  - cbn. auto.
Qed.

Lemma timerRunning_idle (s : GameState.t) :
  GameState.isGameOver s || GameState.isPaused s = true -> timerRunning s = false.
Proof.
  unfold timerRunning. destruct (GameState.isGameOver s), (GameState.isPaused s);
    cbn; congruence.
Qed.

(** C8 (the claim fails as stated).  [timedOutWorld] is reached from the
    initial state and its session is over; the jump input, which is none of
    pause, resume and restart, still changes the state there: the player's
    velocity goes from 0.3 to -7. *)
Lemma jump_changes_finished_session :
  GameState.isGameOver (gameState timedOutWorld) = true
  /\ Player.velocity (GameState.player (gameState timedOutWorld)) == 0.3
  /\ Player.velocity (GameState.player (gameState (dispatch Interaction timedOutWorld)))
     == -7
  /\ gameState (dispatch Interaction timedOutWorld) <> gameState timedOutWorld.
Proof.
  split; [vm_compute; reflexivity|].
  split; [vm_compute; reflexivity|].
  split; [vm_compute; reflexivity|].
  intros E.
  apply (f_equal (fun s => Qred (Player.velocity (GameState.player s)))) in E.
  vm_compute in E. discriminate E.
Qed.

(** C8 (amended).  While the session is paused or over, an animation frame
    leaves the snapshot unchanged whether or not it evaluates a tick, and
    the one-second interval does not run.  The jump and the expiry of an
    armed timeout are not gated: a jump sets the player's velocity to
    [JUMP_FORCE], an expiry clears the flag of its timeout, and each leaves
    every other field as it was. *)
Theorem idle_session_frame (w : World)
    (Hidle : GameState.isGameOver (gameState w)
             || GameState.isPaused (gameState w) = true) :
  (forall (deltaTime : number) (g : rng),
     tick deltaTime (gameState w) g = (gameState w, [], g))
  /\ (forall timestamp : number,
        gameState (dispatch (AnimationFrame timestamp) w) = gameState w)
  /\ gameState (dispatch IntervalTick w) = gameState w
  /\ gameState (dispatch Interaction w)
     = GameState_with_player (gameState w)
         (Player_with_velocity (GameState.player (gameState w)) JUMP_FORCE)
  /\ (forall (i : nat) (t : Timeout),
        nth_error (armed w) i = Some t ->
        gameState (dispatch (TimeoutFires i) w)
        = GameState_with_player (gameState w)
            (match t with
             | clearDoublePoints =>
                 Player_with_flags (GameState.player (gameState w))
                   (Player.isInvincible (GameState.player (gameState w))) false
             | clearInvincible =>
                 Player_with_flags (GameState.player (gameState w))
                   false (Player.hasDoublePoints (GameState.player (gameState w)))
             end))
  /\ (forall i : nat,
        nth_error (armed w) i = None ->
        gameState (dispatch (TimeoutFires i) w) = gameState w).
Proof.
  split; [intros deltaTime g; apply tick_idle; exact Hidle|].
  split; [intros timestamp; apply gameLoop_idle; exact Hidle|].
  split; [cbn [dispatch]; rewrite (timerRunning_idle _ Hidle); reflexivity|].
  split; [reflexivity|].
  split.
  - intros i t Hi. cbn [dispatch]. rewrite Hi. destruct t; reflexivity.
  - intros i Hi. cbn [dispatch]. rewrite Hi. reflexivity.
Qed.

Lemma idle_session_frame_witness :
  GameState.isGameOver (gameState timedOutWorld)
  || GameState.isPaused (gameState timedOutWorld) = true
  /\ (forall timestamp : number,
        gameState (dispatch (AnimationFrame timestamp) timedOutWorld)
        = gameState timedOutWorld)
  /\ gameState (dispatch Interaction timedOutWorld)
     = GameState_with_player (gameState timedOutWorld)
         (Player_with_velocity (GameState.player (gameState timedOutWorld)) JUMP_FORCE).
Proof.
  assert (GameState.isGameOver (gameState timedOutWorld)
          || GameState.isPaused (gameState timedOutWorld) = true) as Hidle
    by (vm_compute; reflexivity).
  split; [exact Hidle|].
  pose proof (idle_session_frame timedOutWorld Hidle) as (_ & Hf & _ & Hj & _).
  split; [exact Hf | exact Hj].
Defined.

(** ** Deferred expiries and restart *)

(** C9 (the claim fails as stated).  The first session of [staleTape] ends
    in the tick that collects a [moonRocket], with the expiry of its double
    points still armed.  After [PlayAgain] the new session collects a
    [moonRocket] of its own and has double points; the expiry armed by the
    first session is still armed, and when it fires it clears the flag of
    the new session's player. *)
Lemma stale_expiry_clears_new_session :
  GameState.isGameOver (gameState endOfFirstSession) = true
  /\ armed endOfFirstSession = [clearDoublePoints]
  /\ GameState.isGameOver (gameState restartedWorld) = false
  /\ Player.hasDoublePoints (GameState.player (gameState restartedWorld)) = true
  /\ armed restartedWorld = [clearDoublePoints; clearDoublePoints]
  /\ Player.hasDoublePoints
       (GameState.player (gameState (dispatch (TimeoutFires 0) restartedWorld)))
     = false
  /\ gameState (dispatch (TimeoutFires 0) restartedWorld) <> gameState restartedWorld.
Proof.
  repeat (split; [vm_compute; reflexivity|]).
  intros E.
  apply (f_equal (fun s => Player.hasDoublePoints (GameState.player s))) in E.
  vm_compute in E. discriminate E.
Qed.

Lemma runTimeout_noop_iff (t : Timeout) (s : GameState.t) :
  runTimeout t s = s
  <-> match t with
      | clearDoublePoints => Player.hasDoublePoints (GameState.player s) = false
      | clearInvincible => Player.isInvincible (GameState.player s) = false
      end.
Proof.
  destruct s as [p cs os sc tl go pa]. destruct p as [x y w h r v inv dbl].
  destruct t; unfold runTimeout, GameState_with_player, Player_with_flags; cbn;
    split; intros E; congruence.
Qed.

(** C9 (amended).  [restartGame] cancels no timeout: every timeout armed
    before [PlayAgain] is still armed after it.  An armed timeout that
    fires clears its flag on the player of whatever session is current and
    leaves every other field and the other flag unchanged; it leaves the
    session as it was exactly when that flag is already false. *)
Theorem expiry_not_cancelled_by_restart :
  (forall w : World, armed (dispatch PlayAgain w) = armed w)
  /\ (forall (w : World) (i : nat) (t : Timeout),
        nth_error (armed w) i = Some t ->
        let s := gameState w in
        let s' := gameState (dispatch (TimeoutFires i) w) in
        s' = runTimeout t s
        /\ match t with
           | clearDoublePoints =>
               Player.hasDoublePoints (GameState.player s') = false
               /\ Player.isInvincible (GameState.player s')
                  = Player.isInvincible (GameState.player s)
           | clearInvincible =>
               Player.isInvincible (GameState.player s') = false
               /\ Player.hasDoublePoints (GameState.player s')
                  = Player.hasDoublePoints (GameState.player s)
           end
        /\ Player_with_flags (GameState.player s') false false
           = Player_with_flags (GameState.player s) false false
        /\ GameState_with_player s' (GameState.player s) = s
        /\ (s' = s <->
            match t with
            | clearDoublePoints => Player.hasDoublePoints (GameState.player s) = false
            | clearInvincible => Player.isInvincible (GameState.player s) = false
            end)).
Proof.
  split.
  - intros w. cbn [dispatch]. destruct (GameState.isGameOver (gameState w)); reflexivity.
  - intros w i t Hi. cbn zeta. cbn [dispatch]. rewrite Hi. cbn [gameState].
    split; [reflexivity|].
    split; [destruct t; split; reflexivity|].
    split; [destruct t; reflexivity|].
    split; [|apply runTimeout_noop_iff].
    destruct (gameState w) as [p cs os sc tl go pa]. destruct t; reflexivity.
Qed.

(** ** Instances on concrete sessions *)


Lemma collectibles_all_honored_witness :
  playing tokenState
  /\ GameState.score (tickState 17 tokenState (constTape 0.5))
     == GameState.score tokenState + 10
  /\ GameState.collectibles (tickState 17 tokenState (constTape 0.5)) = [].
Proof.
  assert (playing tokenState) as Hplay by (split; reflexivity).
  split; [exact Hplay|].
  pose proof (collectibles_all_honored 17 tokenState (constTape 0.5) Hplay)
    as (_ & _ & Hleft & _ & _ & Htoken).
  split.
  - apply (Htoken (scrolled17 (collectibleAt token 110 300))).
    + vm_compute. reflexivity.
    + reflexivity.
  - rewrite Hleft. vm_compute. reflexivity.
Defined.

Lemma same_tick_boost_not_applied_witness :
  (playing crowdedState
   /\ GameState.score (tickState 17 crowdedState (constTape 0.5))
      == GameState.score crowdedState + 10 + 15
   /\ Player.hasDoublePoints
        (GameState.player (tickState 17 crowdedState (constTape 0.5))) = true)
  /\ (playing boostedCrowdedState
      /\ GameState.score (tickState 17 boostedCrowdedState (constTape 0.5))
         == GameState.score boostedCrowdedState + 20 + 30).
Proof.
  assert (playing crowdedState) as Hplay by (split; reflexivity).
  assert (playing boostedCrowdedState) as Hplay' by (split; reflexivity).
  split; (split; [assumption|]).
  - pose proof (same_tick_boost_not_applied 17 crowdedState (constTape 0.5) Hplay)
      as (_ & _ & Hboth).
    destruct (Hboth (scrolled17 (collectibleAt token 110 300))
                    (scrolled17 (collectibleAt moonRocket 125 310)))
      as (Hplain & _ & Hflag).
    + vm_compute. reflexivity.
    + left. split; reflexivity.
    + split; [apply Hplain; reflexivity | exact Hflag].
  - pose proof (same_tick_boost_not_applied 17 boostedCrowdedState (constTape 0.5)
                  Hplay') as (_ & _ & Hboth).
    destruct (Hboth (scrolled17 (collectibleAt token 110 300))
                    (scrolled17 (collectibleAt moonRocket 125 310)))
      as (_ & Hdouble & _).
    + vm_compute. reflexivity.
    + left. split; reflexivity.
    + apply Hdouble. reflexivity.
Defined.

(** * Further properties of the engine *)

(** ** Spawn rates and speeds *)

Lemma floor_hundreds_ge (s : number) (k : Z) :
  (k <= Qfloor (s / 100))%Z <-> 100 * inject_Z k <= s.
Proof.
  assert (s == 100 * (s / 100)) as E by (field; discriminate).
  split.
  - intros H. rewrite Zle_Qle in H. pose proof (Qfloor_le (s / 100)). lra.
  - intros H. rewrite <- (Qfloor_Z k). apply Qfloor_resp_le. lra.
Qed.

Lemma multiplier_ge_iff (s : number) (k : Z) :
  1 + inject_Z k * 0.2 <= getDifficultyMultiplier s <-> 100 * inject_Z k <= s.
Proof.
  rewrite <- floor_hundreds_ge. unfold getDifficultyMultiplier, Math_floor.
  rewrite Zle_Qle. split; intros H; lra.
Qed.

(** Between two consecutive integers there is no integer: a multiplier of
    at least [1 + 0.2 a] with [a > k - 1] is one of at least [1 + 0.2 k]. *)
Lemma multiplier_reaches (s : number) (k : Z) (bound : number) :
  1 + inject_Z (k - 1) * 0.2 < bound -> bound <= 1 + inject_Z k * 0.2 ->
  (bound <= getDifficultyMultiplier s <-> 100 * inject_Z k <= s).
Proof.
  intros Hlo Hhi. rewrite <- multiplier_ge_iff. split; [|lra].
  intros H. unfold getDifficultyMultiplier, Math_floor in *.
  assert (inject_Z (k - 1) < inject_Z (Qfloor (s / 100))) as L by lra.
  rewrite <- Zlt_Qlt in L.
  assert (k <= Qfloor (s / 100))%Z as L' by lia.
  rewrite Zle_Qle in L'. lra.
Qed.

(** X1. For a score [s >= 0] both spawn rates are probabilities between
    their base value and their cap, they never decrease when the score
    grows, the collectible rate sits at its cap 0.03 exactly from score 500
    on and the obstacle rate at its cap 0.02 exactly from score 800 on. *)
Theorem spawn_rates_capped (s : number) (Hs : 0 <= s) :
  (0.015 <= rate_collectible (getSpawnRates s)
   /\ rate_collectible (getSpawnRates s) <= 0.03)
  /\ (0.008 <= rate_obstacle (getSpawnRates s)
      /\ rate_obstacle (getSpawnRates s) <= 0.02)
  /\ (rate_collectible (getSpawnRates s) == 0.03 <-> 500 <= s)
  /\ (rate_obstacle (getSpawnRates s) == 0.02 <-> 800 <= s)
  /\ (forall s' : number, s <= s' ->
        rate_collectible (getSpawnRates s) <= rate_collectible (getSpawnRates s')
        /\ rate_obstacle (getSpawnRates s) <= rate_obstacle (getSpawnRates s')).
Proof.
  pose proof (multiplier_ge_1 s Hs) as Hm.
  pose proof (multiplier_reaches s 5 2) as H5.
  pose proof (multiplier_reaches s 8 2.5) as H8.
  unfold getSpawnRates, rate_collectible, rate_obstacle, Math_min,
    BASE_SPAWN_RATE_collectible, BASE_SPAWN_RATE_obstacle.
  assert (forall s' : number, s <= s' ->
            Qmin (0.015 * getDifficultyMultiplier s) 0.03
            <= Qmin (0.015 * getDifficultyMultiplier s') 0.03
            /\ Qmin (0.008 * getDifficultyMultiplier s) 0.02
               <= Qmin (0.008 * getDifficultyMultiplier s') 0.02) as Hmono.
  { intros s' Hle. pose proof (multiplier_monotone s s' Hle).
    split; apply Q.min_le_compat_r; lra. }
  set (m := getDifficultyMultiplier s) in *.
  assert (1 + inject_Z (5 - 1) * 0.2 < 2) as A5 by reflexivity.
  assert (2 <= 1 + inject_Z 5 * 0.2) as B5 by discriminate.
  assert (1 + inject_Z (8 - 1) * 0.2 < 2.5) as A8 by reflexivity.
  assert (2.5 <= 1 + inject_Z 8 * 0.2) as B8 by discriminate.
  specialize (H5 A5 B5). specialize (H8 A8 B8).
  change (100 * inject_Z 5) with 500 in H5.
  change (100 * inject_Z 8) with 800 in H8.
  assert (500 <= s <-> 100 * 5 <= s) as E5 by (split; intros; lra).
  assert (800 <= s <-> 100 * 8 <= s) as E8 by (split; intros; lra).
  destruct (Q.min_spec (0.015 * m) 0.03) as [[C1 C2]|[C1 C2]];
  destruct (Q.min_spec (0.008 * m) 0.02) as [[O1 O2]|[O1 O2]];
    rewrite C2, O2.
  all: split; [lra|]; split; [lra|].
  all: split; [rewrite E5, <- H5; split; intros; lra|].
  all: split; [rewrite E8, <- H8; split; intros; lra|].
  all: exact Hmono.
Qed.

Lemma spawn_rates_capped_witness :
  0 <= 650
  /\ rate_collectible (getSpawnRates 650) == 0.03
  /\ ~ rate_obstacle (getSpawnRates 650) == 0.02.
Proof.
  assert (0 <= 650) as Hs by discriminate.
  split; [exact Hs|].
  pose proof (spawn_rates_capped 650 Hs) as (_ & _ & Hc & Ho & _).
  split.
  - apply Hc. discriminate.
  - intros E. apply Ho in E. revert E. vm_compute. intros E. apply E. reflexivity.
Defined.

(** X2. For a score [s >= 0] the collectibles scroll at 3 units per
    reference tick or faster and the obstacles at 4 or faster; the obstacle
    speed is always 4/3 of the collectible speed; both never decrease when
    the score grows; and, unlike the spawn rates, they have no cap: every
    bound is exceeded at some score. *)
Theorem speeds_scale_without_cap (s : number) (Hs : 0 <= s) :
  3 <= horizontal (getSpeeds s)
  /\ 4 <= obstacle (getSpeeds s)
  /\ 3 * obstacle (getSpeeds s) == 4 * horizontal (getSpeeds s)
  /\ (forall s' : number, s <= s' ->
        horizontal (getSpeeds s) <= horizontal (getSpeeds s')
        /\ obstacle (getSpeeds s) <= obstacle (getSpeeds s'))
  /\ (forall bound : number, exists s' : number,
        s <= s' /\ bound < horizontal (getSpeeds s')
        /\ bound < obstacle (getSpeeds s')).
Proof.
  pose proof (multiplier_ge_1 s Hs) as Hm.
  unfold getSpeeds, horizontal, obstacle, BASE_HORIZONTAL_SPEED, BASE_OBSTACLE_SPEED.
  split; [lra|]. split; [lra|]. split; [ring|]. split.
  - intros s' Hle. pose proof (multiplier_monotone s s' Hle). split; lra.
  - intros bound.
    set (n := Z.max (Qceiling s) (Qceiling (2 * bound))).
    assert (0 <= n)%Z as Hn0.
    { assert (0 <= Qceiling s)%Z
        by (change 0%Z with (Qceiling 0); apply Qceiling_resp_le; exact Hs).
      lia. }
    assert (inject_Z (Qceiling s) <= inject_Z n) as N1
      by (rewrite <- Zle_Qle; lia).
    assert (inject_Z (Qceiling (2 * bound)) <= inject_Z n) as N2
      by (rewrite <- Zle_Qle; lia).
    assert (0 <= inject_Z n) as N0
      by (change 0 with (inject_Z 0); rewrite <- Zle_Qle; exact Hn0).
    pose proof (Qle_ceiling s) as C1. pose proof (Qle_ceiling (2 * bound)) as C2.
    exists (100 * inject_Z n).
    assert (1 + inject_Z n * 0.2 <= getDifficultyMultiplier (100 * inject_Z n)) as G
      by (apply multiplier_ge_iff; lra).
    split; [lra|]. split; lra.
Qed.

Lemma speeds_scale_without_cap_witness :
  0 <= 250
  /\ 3 <= horizontal (getSpeeds 250)
  /\ 3 * obstacle (getSpeeds 250) == 4 * horizontal (getSpeeds 250).
Proof.
  assert (0 <= 250) as Hs by discriminate.
  split; [exact Hs|].
  pose proof (speeds_scale_without_cap 250 Hs) as (H3 & _ & Hr & _).
  split; [exact H3 | exact Hr].
Defined.

(** ** The frame throttle *)

Lemma World_eta (w : World) :
  {| gameState := gameState w; lastTimeRef := lastTimeRef w;
     tape := tape w; armed := armed w |} = w.
Proof. destruct w; reflexivity. Qed.

(** X3. [gameLoop] throttles on the time since the last evaluated tick.
    With [lastTimeRef] set, a frame at most 16 ms after it changes nothing
    at all, and such a frame followed by a later one has the effect of the
    later one alone, so the time of skipped frames is not lost; a frame more
    than 16 ms after it evaluates one tick with the whole elapsed time and
    moves [lastTimeRef] to its timestamp. *)
Theorem frame_throttle (w : World) (Hset : Qeq_bool (lastTimeRef w) 0 = false) :
  (forall timestamp : number,
     timestamp - lastTimeRef w <= 16 -> gameLoop timestamp w = w)
  /\ (forall t1 t2 : number,
        t1 - lastTimeRef w <= 16 ->
        gameLoop t2 (gameLoop t1 w) = gameLoop t2 w)
  /\ (forall timestamp : number,
        16 < timestamp - lastTimeRef w ->
        lastTimeRef (gameLoop timestamp w) = timestamp
        /\ gameState (gameLoop timestamp w)
           = tickState (timestamp - lastTimeRef w) (gameState w) (tape w)
        /\ armed (gameLoop timestamp w)
           = armed w ++ snd (fst (tick (timestamp - lastTimeRef w)
                                       (gameState w) (tape w)))).
Proof.
  assert (forall timestamp : number,
            timestamp - lastTimeRef w <= 16 -> gameLoop timestamp w = w) as Hskip.
  { intros timestamp Hle. unfold gameLoop. rewrite Hset.
    apply Qgtb_le in Hle. rewrite Hle. apply World_eta. }
  split; [exact Hskip|]. split.
  - intros t1 t2 Hle. rewrite (Hskip t1 Hle). reflexivity.
  - intros timestamp Hgt. unfold gameLoop, tickState. rewrite Hset.
    apply Qgtb_gt in Hgt. rewrite Hgt.
    destruct (tick _ _ _) as [[s' ts] g']. cbn. repeat split.
Qed.

(** The first frame after mounting finds [lastTimeRef] at 0: it records its
    timestamp and evaluates no tick, whatever the timestamp. *)
Lemma first_frame_records (timestamp : number) (w : World) :
  Qeq_bool (lastTimeRef w) 0 = true ->
  gameLoop timestamp w
  = {| gameState := gameState w; lastTimeRef := timestamp;
       tape := tape w; armed := armed w |}.
Proof.
  intros H0. unfold gameLoop. rewrite H0.
  assert ((timestamp - timestamp >? 16) = false) as E by (apply Qgtb_le; lra).
  rewrite E. reflexivity.
Qed.

Lemma frame_throttle_witness :
  Qeq_bool (lastTimeRef (gameLoop 1000 (initialWorld (constTape 0.5)))) 0 = false
  /\ gameLoop 1010 (gameLoop 1000 (initialWorld (constTape 0.5)))
     = gameLoop 1000 (initialWorld (constTape 0.5))
  /\ lastTimeRef (gameLoop 1017 (gameLoop 1000 (initialWorld (constTape 0.5))))
     = 1017.
Proof.
  assert (Qeq_bool (lastTimeRef (gameLoop 1000 (initialWorld (constTape 0.5)))) 0
          = false) as Hset by reflexivity.
  split; [exact Hset|].
  pose proof (frame_throttle _ Hset) as (Hskip & _ & Htick).
  split.
  - apply Hskip. vm_compute. discriminate.
  - apply Htick. vm_compute. reflexivity.
Defined.

(** ** Transitions of the session *)

Lemma tickState_isPaused (deltaTime : number) (prev : GameState.t)
    (g : rng) :
  GameState.isPaused (tickState deltaTime prev g) = GameState.isPaused prev.
Proof.
  destruct (playing_or_idle prev) as [Hplay|Hidle].
  - destruct (tick_fields deltaTime prev g Hplay) as (_ & _ & _ & _ & _ & _ & Hz & _).
    cbn zeta in Hz. rewrite Hz. destruct Hplay as [_ ->]. reflexivity.
  - now rewrite (tickState_idle _ _ _ Hidle).
Qed.

(** X4. Game over is left only through [restartGame] and entered only by
    an animation frame: every other event keeps [isGameOver] as it is, and
    while the session is over frames and interval callbacks leave the
    snapshot untouched.  A click on the Play Again button runs
    [restartGame] and then the jump of the container it sits in: it leaves
    the initial session with the player's velocity at [JUMP_FORCE], and
    leaves the random tape, [lastTimeRef] and the armed timeouts alone.
    While the session is not over the button is not there. *)
Theorem game_over_transitions (e : Event) (w : World) :
  (GameState.isGameOver (gameState w) = true ->
     e <> PlayAgain ->
     GameState.isGameOver (gameState (dispatch e w)) = true)
  /\ (GameState.isGameOver (gameState w) = true ->
        forall timestamp : number,
          gameState (dispatch (AnimationFrame timestamp) w) = gameState w
          /\ gameState (dispatch IntervalTick w) = gameState w)
  /\ (GameState.isGameOver (gameState w) = false ->
        (forall timestamp : number, e <> AnimationFrame timestamp) ->
        GameState.isGameOver (gameState (dispatch e w)) = false)
  /\ (GameState.isGameOver (gameState w) = true ->
        gameState (clickPlayAgain w) = handleInteraction initialGameState
        /\ Player.velocity (GameState.player (gameState (clickPlayAgain w)))
           = JUMP_FORCE
        /\ GameState_with_player (gameState (clickPlayAgain w)) initialPlayer
           = initialGameState
        /\ tape (clickPlayAgain w) = tape w
        /\ armed (clickPlayAgain w) = armed w
        /\ lastTimeRef (clickPlayAgain w) = lastTimeRef w)
  /\ (GameState.isGameOver (gameState w) = false -> dispatch PlayAgain w = w).
Proof.
  split; [|split; [|split; [|split]]].
  - intros Hover Hne. destruct e as [timestamp| | | |i]; cbn [dispatch].
    + assert (GameState.isGameOver (gameState w)
              || GameState.isPaused (gameState w) = true) as Hidle
        by (rewrite Hover; reflexivity).
      destruct (gameLoop_idle timestamp w Hidle) as (-> & _). exact Hover.
    + unfold timerRunning. rewrite Hover. exact Hover.
    + exact Hover.
    + congruence.
    + destruct (nth_error (armed w) i) as [t|]; [|exact Hover].
      cbn [gameState]. destruct (runTimeout_frame t (gameState w)) as (_ & _ & -> & _).
      exact Hover.
  - intros Hover timestamp.
    assert (GameState.isGameOver (gameState w)
            || GameState.isPaused (gameState w) = true) as Hidle
      by (rewrite Hover; reflexivity).
    split; [apply gameLoop_idle; exact Hidle|].
    cbn [dispatch]. rewrite (timerRunning_idle _ Hidle). reflexivity.
  - intros Hlive Hne. destruct e as [timestamp| | | |i]; cbn [dispatch].
    + exfalso. exact (Hne timestamp eq_refl).
    + destruct (timerRunning (gameState w)); exact Hlive.
    + exact Hlive.
    + rewrite Hlive. exact Hlive.
    + destruct (nth_error (armed w) i) as [t|]; [|exact Hlive].
      cbn [gameState]. destruct (runTimeout_frame t (gameState w)) as (_ & _ & -> & _).
      exact Hlive.
  - intros Hover. unfold clickPlayAgain. cbn [dispatch]. rewrite Hover.
    repeat split.
  - intros Hlive. cbn [dispatch]. rewrite Hlive. reflexivity.
Qed.

(** ** Invariants of the reachable sessions *)

Lemma tickState_player (deltaTime : number) (prev : GameState.t) (g : rng) :
  let p := GameState.player prev in
  let p' := GameState.player (tickState deltaTime prev g) in
  Player.x p' = Player.x p /\ Player.width p' = Player.width p
  /\ Player.height p' = Player.height p
  /\ ((0 <= Player.y p /\ Player.y p <= 560) ->
      0 <= Player.y p' /\ Player.y p' <= 560).
Proof.
  cbn zeta. destruct (playing_or_idle prev) as [Hplay|Hidle].
  - destruct (tick_fields deltaTime prev g Hplay)
      as (_ & _ & _ & _ & Hp & _ & _ & Hn).
    cbn zeta in Hp, Hn. rewrite Hp, Hn.
    destruct (newPlayer_cases prev) as (Hy & _ & _ & _ & Hx & Hw & Hh & _).
    cbn zeta in Hy, Hx, Hw, Hh.
    unfold Player_with_flags.
    cbn [Player.x Player.y Player.width Player.height].
    split; [exact Hx|]. split; [exact Hw|]. split; [exact Hh|].
    intros _. exact Hy.
  - rewrite (tickState_idle _ _ _ Hidle). tauto.
Qed.

Lemma dispatch_player_invariant (e : Event) (w : World) :
  GameState.isPaused (gameState w) = false
  /\ playerInBounds (GameState.player (gameState w)) ->
  GameState.isPaused (gameState (dispatch e w)) = false
  /\ playerInBounds (GameState.player (gameState (dispatch e w))).
Proof.
  intros [Hz Hp]. destruct e as [timestamp| | | |i]; cbn [dispatch].
  - destruct (gameLoop_gameState timestamp w) as [->|(dt & _ & ->)]; [auto|].
    rewrite tickState_isPaused. split; [exact Hz|].
    destruct (tickState_player dt (gameState w) (tape w)) as (Ex & Ew & Eh & Hy).
    cbn zeta in Ex, Ew, Eh, Hy.
    destruct Hp as (Px & Pw & Ph & Py0 & Py1).
    unfold playerInBounds. rewrite Ex, Ew, Eh.
    destruct (Hy (conj Py0 Py1)). auto.
  - destruct (timerRunning (gameState w)); auto.
  - cbn. auto.
  - destruct (GameState.isGameOver (gameState w)); [|auto].
    cbn. split; [reflexivity|]. unfold playerInBounds. cbn.
    repeat split; try reflexivity; discriminate.
  - destruct (nth_error (armed w) i) as [t|]; [|auto].
    cbn [gameState]. destruct t; cbn; auto.
Qed.

(** X5. In every session reachable from the initial one, whatever the
    random draws and the order of frames, interval callbacks, jumps,
    restarts and expiries: the session is never paused (nothing in the
    component sets [isPaused]), and the player's box is the 40 by 40 box at
    [x = 100] with [0 <= y <= 560]. *)
Theorem never_paused_player_in_column (es : list Event) (g : rng) :
  GameState.isPaused (gameState (run es (initialWorld g))) = false
  /\ playerInBounds (GameState.player (gameState (run es (initialWorld g)))).
Proof.
  assert (forall w : World,
            GameState.isPaused (gameState w) = false
            /\ playerInBounds (GameState.player (gameState w)) ->
            GameState.isPaused (gameState (run es w)) = false
            /\ playerInBounds (GameState.player (gameState (run es w)))) as Hrun.
  { unfold run. induction es as [|e es IH]; intros w Hw; cbn [fold_left].
    - exact Hw.
    - apply IH. apply dispatch_player_invariant. exact Hw. }
  apply Hrun. cbn. split; [reflexivity|]. unfold playerInBounds. cbn.
  repeat split; try reflexivity; discriminate.
Qed.

Lemma spawnCollectible_inField (g : rng) :
  unit_interval g ->
  collectibleInField (fst (spawnCollectible g))
  /\ unit_interval (snd (spawnCollectible g)).
Proof.
  intros Hg. split.
  - destruct (Hg 2%nat) as [B0 B1]. unfold collectibleInField. cbn.
    unfold BASE_GAME_WIDTH, BASE_GAME_HEIGHT, PLAYER_SIZE.
    repeat split; try lra; try nra.
  - intros n. cbn. apply Hg.
Qed.

Lemma spawnObstacle_inField (g : rng) :
  unit_interval g ->
  obstacleInField (fst (spawnObstacle g))
  /\ unit_interval (snd (spawnObstacle g)).
Proof.
  intros Hg. split.
  - destruct (Hg 2%nat) as [B0 B1]. unfold obstacleInField. cbn.
    unfold BASE_GAME_WIDTH, BASE_GAME_HEIGHT, PLAYER_SIZE.
    repeat split; try lra; try nra.
  - intros n. cbn. apply Hg.
Qed.

Lemma scrollCollectibles_inField (move : number) (cs : list Collectible.t) :
  0 <= move -> Forall collectibleInField cs ->
  Forall collectibleInField (scrollCollectibles move cs).
Proof.
  intros Hm Hcs. unfold scrollCollectibles. apply Forall_map.
  apply Forall_forall. intros c Hin. apply filter_In in Hin. destruct Hin as [Hin _].
  rewrite Forall_forall in Hcs. destruct (Hcs c Hin) as (Hw & Hh & Hx & Hy0 & Hy1).
  unfold collectibleInField. cbn. repeat split; try assumption. lra.
Qed.

Lemma scrollObstacles_inField (move : number) (os : list Obstacle.t) :
  0 <= move -> Forall obstacleInField os ->
  Forall obstacleInField (scrollObstacles move os).
Proof.
  intros Hm Hos. unfold scrollObstacles. apply Forall_map.
  apply Forall_forall. intros o Hin. apply filter_In in Hin. destruct Hin as [Hin _].
  rewrite Forall_forall in Hos. destruct (Hos o Hin) as (Hw & Hh & Hx & Hy0 & Hy1).
  unfold obstacleInField. cbn. repeat split; try assumption. lra.
Qed.

Lemma newState_inField (deltaTime : number) (prev : GameState.t) (g : rng) :
  16 < deltaTime -> unit_interval g -> sessionInField prev ->
  sessionInField (fst (newState deltaTime prev g))
  /\ unit_interval (snd (newState deltaTime prev g)).
Proof.
  intros Hd Hg (Hcs & Hos & Hsc).
  destruct (moves_positive deltaTime _ Hd Hsc) as [Hh Ho].
  pose proof (scrollCollectibles_inField _ _ (Qlt_le_weak _ _ Hh) Hcs) as Sc.
  pose proof (scrollObstacles_inField _ _ (Qlt_le_weak _ _ Ho) Hos) as So.
  assert (unit_interval (fun n : nat => g (S (S n)))) as Hg2
    by (intros n; apply Hg).
  unfold newState, bind, ret, Math_random.
  set (g2 := fun n : nat => g (S (S n))) in *.
  destruct (g 0%nat <? _).
  - destruct (spawnCollectible_inField g2 Hg2) as [Cok Cg].
    destruct (spawnCollectible g2) as [c gc]. cbn [fst snd] in Cok, Cg.
    destruct (g 1%nat <? _).
    + destruct (spawnObstacle_inField gc Cg) as [Ook Og].
      destruct (spawnObstacle gc) as [o go]. cbn [fst snd] in Ook, Og |- *.
      split; [|exact Og].
      split; [|split; [|exact Hsc]]; cbn;
        apply Forall_app; split; auto.
    + cbn [fst snd]. split; [|exact Cg].
      split; [|split; [|exact Hsc]]; cbn;
        apply Forall_app; split; auto.
  - destruct (g 1%nat <? _).
    + destruct (spawnObstacle_inField g2 Hg2) as [Ook Og].
      destruct (spawnObstacle g2) as [o go]. cbn [fst snd] in Ook, Og |- *.
      split; [|exact Og].
      split; [|split; [|exact Hsc]]; cbn;
        apply Forall_app; split; auto.
    + cbn [fst snd]. split; [|exact Hg2].
      split; [|split; [|exact Hsc]]; cbn;
        apply Forall_app; split; auto.
Qed.

Lemma checkCollisions_inField (s : GameState.t) :
  sessionInField s -> sessionInField (fst (checkCollisions s)).
Proof.
  intros (Hcs & Hos & Hsc).
  destruct (checkCollisions_fields s) as (Ec & Eo & Es & _).
  cbn zeta in Ec, Eo, Es. unfold sessionInField. rewrite Ec, Eo, Es.
  split; [|split; [exact Hos|]].
  - apply Forall_forall. intros c Hin. apply filter_In in Hin.
    rewrite Forall_forall in Hcs. apply Hcs. tauto.
  - match goal with
    | |- _ <= _ + sumOver ?f ?l =>
        pose proof (sumOver_nonneg f l (fun c => updateScore_nonneg _ _))
    end.
    lra.
Qed.

Lemma tick_inField (deltaTime : number) (prev : GameState.t) (g : rng) :
  16 < deltaTime -> unit_interval g -> sessionInField prev ->
  sessionInField (fst (fst (tick deltaTime prev g)))
  /\ unit_interval (snd (tick deltaTime prev g)).
Proof.
  intros Hd Hg Hs. unfold tick.
  destruct (GameState.isGameOver prev || GameState.isPaused prev).
  - cbn. auto.
  - destruct (newState_inField deltaTime prev g Hd Hg Hs) as [Hm Hg'].
    unfold bind, ret. destruct (newState deltaTime prev g) as [m g'].
    cbn [fst snd] in Hm, Hg' |- *. split; [|exact Hg'].
    apply checkCollisions_inField. exact Hm.
Qed.

Lemma dispatch_inField (e : Event) (w : World) :
  sessionInField (gameState w) /\ unit_interval (tape w) ->
  sessionInField (gameState (dispatch e w)) /\ unit_interval (tape (dispatch e w)).
Proof.
  intros [Hs Hg]. destruct e as [timestamp| | | |i]; cbn [dispatch].
  - unfold gameLoop.
    set (dt := timestamp - _).
    destruct (dt >? 16) eqn:E; [|cbn; auto].
    apply Qgtb_gt in E.
    destruct (tick_inField dt (gameState w) (tape w) E Hg Hs) as [Hs' Hg'].
    destruct (tick dt (gameState w) (tape w)) as [[s' ts] g'].
    cbn in Hs', Hg' |- *. auto.
  - destruct (timerRunning (gameState w)); cbn; auto.
  - cbn. auto.
  - destruct (GameState.isGameOver (gameState w)); [|auto].
    cbn. split; [|exact Hg]. unfold sessionInField. cbn.
    repeat split; try constructor; discriminate.
  - destruct (nth_error (armed w) i) as [t|]; [|auto].
    cbn [gameState tape]. split; [|exact Hg]. destruct t; exact Hs.
Qed.

(** X6. When the random tape honours the contract of [Math.random]
    (every draw in [[0, 1)]), every session reachable from the initial one
    holds only collectibles that are 40 by 40 and obstacles that are 60 by
    60, each with [x <= 800] (nothing is ever right of the spawn edge) and
    [0 <= y < 560]; and its score is never negative. *)
Theorem entities_stay_in_field (es : list Event) (g : rng)
    (Hg : unit_interval g) :
  sessionInField (gameState (run es (initialWorld g))).
Proof.
  assert (forall w : World,
            sessionInField (gameState w) /\ unit_interval (tape w) ->
            sessionInField (gameState (run es w))
            /\ unit_interval (tape (run es w))) as Hrun.
  { unfold run. induction es as [|e es IH]; intros w Hw; cbn [fold_left].
    - exact Hw.
    - apply IH. apply dispatch_inField. exact Hw. }
  apply Hrun. cbn. split; [|exact Hg]. unfold sessionInField. cbn.
  repeat split; try constructor; discriminate.
Qed.

Lemma entities_stay_in_field_witness :
  unit_interval staleTape
  /\ sessionInField (gameState (run (firstSession ++ secondSession)
                                    (initialWorld staleTape))).
Proof.
  assert (unit_interval staleTape) as Hg.
  { intros n. unfold staleTape, tapeOf.
    do 17 (destruct n as [|n]; [cbn; split; [discriminate | reflexivity]|]).
    destruct n; cbn; split; (discriminate || reflexivity). }
  split; [exact Hg|].
  exact (entities_stay_in_field (firstSession ++ secondSession) staleTape Hg).
Defined.

(** ** Score and time stay whole numbers *)

Lemma multipleOf5_plus (a b : number) :
  multipleOf5 a -> multipleOf5 b -> multipleOf5 (a + b).
Proof.
  intros [n Hn] [m Hm]. exists (n + m)%Z. rewrite inject_Z_plus, Hn, Hm. ring.
Qed.

Lemma integral_plus (a b : number) : integral a -> integral b -> integral (a + b).
Proof.
  intros [n Hn] [m Hm]. exists (n + m)%Z. rewrite inject_Z_plus, Hn, Hm. ring.
Qed.

Lemma updateScore_multipleOf5 (k : CollectibleType) (dbl : bool) :
  multipleOf5 (updateScore k dbl).
Proof.
  destruct k, dbl;
    [exists 4%Z | exists 2%Z | exists 6%Z | exists 3%Z | exists 8%Z | exists 4%Z];
    reflexivity.
Qed.

Lemma TIME_BONUS_integral (k : CollectibleType) : integral (TIME_BONUS k).
Proof.
  destruct k; [exists 2%Z | exists 5%Z | exists 3%Z]; reflexivity.
Qed.

Lemma sumOver_closed {A : Type} (P : number -> Prop) (f : A -> number) (xs : list A) :
  P 0 -> (forall a b : number, P a -> P b -> P (a + b)) ->
  (forall a : A, P (f a)) -> P (sumOver f xs).
Proof.
  intros P0 Pplus Pf. induction xs as [|a xs IH]; cbn [sumOver fold_right].
  - exact P0.
  - apply Pplus; [apply Pf | exact IH].
Qed.

Lemma tick_whole (deltaTime : number) (prev : GameState.t) (g : rng) :
  multipleOf5 (GameState.score prev) /\ integral (GameState.timeLeft prev) ->
  multipleOf5 (GameState.score (tickState deltaTime prev g))
  /\ integral (GameState.timeLeft (tickState deltaTime prev g)).
Proof.
  intros [Hs Ht]. destruct (playing_or_idle prev) as [Hplay|Hidle].
  - destruct (tick_fields deltaTime prev g Hplay) as (_ & _ & Es & Et & _).
    cbn zeta in Es, Et. split.
    + match type of Es with
      | _ == _ + sumOver ?f ?l =>
          destruct (multipleOf5_plus _ _ Hs
                      (sumOver_closed multipleOf5 f l
                         (ex_intro _ 0%Z eq_refl) multipleOf5_plus
                         (fun c => updateScore_multipleOf5 _ _))) as [n Hn]
      end.
      exists n. rewrite Es. exact Hn.
    + match type of Et with
      | _ == _ + sumOver ?f ?l =>
          destruct (integral_plus _ _ Ht
                      (sumOver_closed integral f l
                         (ex_intro _ 0%Z eq_refl) integral_plus
                         (fun c => TIME_BONUS_integral _))) as [n Hn]
      end.
      exists n. rewrite Et. exact Hn.
  - rewrite (tickState_idle _ _ _ Hidle). auto.
Qed.

Lemma timerCallback_whole (s : GameState.t) :
  integral (GameState.timeLeft s) -> integral (GameState.timeLeft (timerCallback s)).
Proof.
  intros [n Hn]. unfold timerCallback, GameState_with_timeLeft, Math_max.
  cbn [GameState.timeLeft].
  destruct (Q.max_spec 0 (GameState.timeLeft s - 1)) as [[_ E]|[_ E]].
  - exists (n - 1)%Z.
    assert (inject_Z (n - 1) == inject_Z n - 1) as En
      by (unfold Z.sub; rewrite inject_Z_plus; reflexivity).
    lra.
  - exists 0%Z. rewrite E. reflexivity.
Qed.

Lemma dispatch_whole (e : Event) (w : World) :
  multipleOf5 (GameState.score (gameState w))
  /\ integral (GameState.timeLeft (gameState w)) ->
  multipleOf5 (GameState.score (gameState (dispatch e w)))
  /\ integral (GameState.timeLeft (gameState (dispatch e w))).
Proof.
  intros [Hs Ht]. destruct e as [timestamp| | | |i]; cbn [dispatch].
  - destruct (gameLoop_gameState timestamp w) as [->|(dt & _ & ->)]; [auto|].
    apply tick_whole. auto.
  - destruct (timerRunning (gameState w)); [|auto].
    cbn [setGameState gameState]. split; [exact Hs|].
    apply timerCallback_whole. exact Ht.
  - cbn. auto.
  - destruct (GameState.isGameOver (gameState w)); [|auto].
    cbn. split; [exists 0%Z | exists 30%Z]; reflexivity.
  - destruct (nth_error (armed w) i) as [t|]; [|auto].
    cbn [gameState]. destruct t; cbn; auto.
Qed.

(** X7. In every session reachable from the initial one the score is an
    integer multiple of 5 and the time left is an integer: the score only
    grows by 10, 15, 20 or their doubles, the time left by 2, 3 or 5 and
    shrinks by whole seconds down to 0. *)
Theorem score_and_time_whole (es : list Event) (g : rng) :
  multipleOf5 (GameState.score (gameState (run es (initialWorld g))))
  /\ integral (GameState.timeLeft (gameState (run es (initialWorld g)))).
Proof.
  assert (forall w : World,
            multipleOf5 (GameState.score (gameState w))
            /\ integral (GameState.timeLeft (gameState w)) ->
            multipleOf5 (GameState.score (gameState (run es w)))
            /\ integral (GameState.timeLeft (gameState (run es w)))) as Hrun.
  { unfold run. induction es as [|e es IH]; intros w Hw; cbn [fold_left].
    - exact Hw.
    - apply IH. apply dispatch_whole. exact Hw. }
  apply Hrun. cbn. split; [exists 0%Z | exists 30%Z]; reflexivity.
Qed.

(** ** More on the collision resolver *)

Lemma filter_none_left {A : Type} (f : A -> bool) (xs : list A) :
  filter f (filter (fun a => negb (f a)) xs) = [].
Proof.
  induction xs as [|a xs IH]; cbn [filter]; [reflexivity|].
  destruct (f a) eqn:E; cbn [negb filter]; [exact IH|].
  rewrite E. exact IH.
Qed.

(** X8. Nothing is collected twice: resolving collisions again on the
    snapshot [checkCollisions] has just produced collects nothing, so the
    player, the collectibles, the obstacles, the score and the time left
    stay as they are and no timeout is armed. *)
Theorem collisions_resolved_once (state : GameState.t) :
  let once := fst (checkCollisions state) in
  let twice := checkCollisions once in
  collected (GameState.player once) (GameState.collectibles once) = []
  /\ GameState.player (fst twice) = GameState.player once
  /\ GameState.collectibles (fst twice) = GameState.collectibles once
  /\ GameState.obstacles (fst twice) = GameState.obstacles once
  /\ GameState.score (fst twice) == GameState.score once
  /\ GameState.timeLeft (fst twice) == GameState.timeLeft once
  /\ snd twice = [].
Proof.
  cbn zeta.
  destruct (checkCollisions_fields state) as (Ec & _ & _ & _ & Ep & _).
  cbn zeta in Ec, Ep.
  set (once := fst (checkCollisions state)) in *.
  assert (collected (GameState.player once) (GameState.collectibles once) = [])
    as Hnone.
  { rewrite Ec, Ep. unfold collected.
    erewrite filter_ext; [apply filter_none_left|].
    intros c. reflexivity. }
  destruct (checkCollisions_fields once)
    as (Fc & Fo & Fs & Ft & Fp & _ & _ & Fa).
  cbn zeta in Fc, Fo, Fs, Ft, Fp, Fa.
  rewrite Hnone in Fs, Ft, Fp, Fa. cbn in Fs, Ft, Fp, Fa.
  split; [exact Hnone|]. split.
  - rewrite Fp, !orb_false_r. destruct (GameState.player once); reflexivity.
  - split.
    + rewrite Fc. clear - Hnone. unfold collected in Hnone.
      induction (GameState.collectibles once) as [|c cs IH]; [reflexivity|].
      cbn [filter] in Hnone |- *.
      destruct (hasCollided (GameState.player once) c); [discriminate|].
      cbn [negb]. f_equal. apply IH. exact Hnone.
    + split; [exact Fo|]. split; [rewrite Fs; ring|].
      split; [rewrite Ft; ring | exact Fa].
Qed.

Lemma tick_armed (deltaTime : number) (prev : GameState.t) (g : rng) :
  playing prev ->
  snd (fst (tick deltaTime prev g))
  = snd (checkCollisions (movedState deltaTime prev g)).
Proof.
  intros [Ho Hp]. unfold tick, movedState, bind, ret. rewrite Ho, Hp. cbn [orb].
  destruct (newState deltaTime prev g). reflexivity.
Qed.

Lemma flat_map_expiry_length (cs : list Collectible.t) :
  length (flat_map expiryOf cs) = length (filter isBoost cs).
Proof.
  induction cs as [|c cs IH]; [reflexivity|].
  cbn [flat_map filter]. rewrite length_app, IH.
  unfold expiryOf, isBoost. destruct (Collectible.type c); reflexivity.
Qed.

(** X9. A tick evaluated in the Playing state arms one timeout for each
    boost it collects, in the order of collection and whether or not the
    player already has the effect: [clearDoublePoints] for a [moonRocket],
    [clearInvincible] for a [diamondHands], nothing for a token; a paused or
    finished session arms nothing. *)
Theorem one_expiry_per_boost (deltaTime : number) (prev : GameState.t) (g : rng) :
  (playing prev ->
     let moved := movedState deltaTime prev g in
     let got := collected (GameState.player moved) (GameState.collectibles moved) in
     snd (fst (tick deltaTime prev g)) = flat_map expiryOf got
     /\ length (snd (fst (tick deltaTime prev g))) = length (filter isBoost got)
     /\ (length (filter isClearDoublePoints (snd (fst (tick deltaTime prev g))))
         = length (filter (isType moonRocket) got)))
  /\ (GameState.isGameOver prev || GameState.isPaused prev = true ->
        snd (fst (tick deltaTime prev g)) = []).
Proof.
  split.
  - intros Hplay. cbn zeta. rewrite (tick_armed _ _ _ Hplay).
    destruct (checkCollisions_fields (movedState deltaTime prev g))
      as (_ & _ & _ & _ & _ & _ & _ & Ha).
    cbn zeta in Ha. rewrite Ha.
    split; [reflexivity|]. split; [apply flat_map_expiry_length|].
    clear Ha. induction (collected _ _) as [|c cs IH]; [reflexivity|].
    cbn [flat_map filter]. rewrite filter_app, length_app, IH.
    unfold expiryOf, isType. destruct (Collectible.type c); reflexivity.
  - intros Hidle. rewrite (tick_idle _ _ _ Hidle). reflexivity.
Qed.

(** ** The countdown *)

Lemma GameState_with_timeLeft_same (s : GameState.t) :
  GameState_with_timeLeft s (GameState.timeLeft s) = s.
Proof. destruct s; reflexivity. Qed.

Lemma seconds_S (n : nat) (s : GameState.t) :
  seconds (S n) s = timerCallback (seconds n s).
Proof. reflexivity. Qed.

Lemma seconds_fields (n : nat) (s : GameState.t) :
  GameState_with_timeLeft (seconds n s) (GameState.timeLeft s) = s.
Proof.
  induction n as [|n IH].
  - apply GameState_with_timeLeft_same.
  - rewrite seconds_S. unfold timerCallback.
    destruct (seconds n s); cbn in *. exact IH.
Qed.

Lemma seconds_timeLeft (n : nat) (s : GameState.t) :
  0 <= GameState.timeLeft s ->
  GameState.timeLeft (seconds n s)
  == Qmax 0 (GameState.timeLeft s - inject_Z (Z.of_nat n)).
Proof.
  intros H0. induction n as [|n IH].
  - change (seconds 0 s) with s. change (inject_Z (Z.of_nat 0)) with 0.
    destruct (Q.max_spec 0 (GameState.timeLeft s - 0)) as [[_ E]|[L E]]; lra.
  - rewrite seconds_S.
    unfold timerCallback, GameState_with_timeLeft, Math_max.
    cbn [GameState.timeLeft].
    assert (inject_Z (Z.of_nat (S n)) == inject_Z (Z.of_nat n) + 1) as En
      by (rewrite Nat2Z.inj_succ; unfold Z.succ; rewrite inject_Z_plus; reflexivity).
    destruct (Q.max_spec 0 (GameState.timeLeft (seconds n s) - 1)) as [[A E]|[A E]];
    destruct (Q.max_spec 0 (GameState.timeLeft s - inject_Z (Z.of_nat n)))
      as [[B F]|[B F]];
    destruct (Q.max_spec 0 (GameState.timeLeft s - inject_Z (Z.of_nat (S n))))
      as [[C G]|[C G]]; lra.
Qed.

(** X10. On a session whose time left is not negative, [n] firings of the
    one-second interval leave [max(0, timeLeft - n)] and change nothing
    else.  Once [n] reaches the time left, a session in the Playing state
    is ended by the next evaluated tick, whatever that tick collects. *)
Theorem countdown_runs_out (n : nat) (s : GameState.t)
    (H0 : 0 <= GameState.timeLeft s) :
  GameState.timeLeft (seconds n s)
  == Math_max 0 (GameState.timeLeft s - inject_Z (Z.of_nat n))
  /\ GameState_with_timeLeft (seconds n s) (GameState.timeLeft s) = s
  /\ (GameState.timeLeft s <= inject_Z (Z.of_nat n) -> playing s ->
      forall (deltaTime : number) (g : rng),
        GameState.isGameOver (tickState deltaTime (seconds n s) g) = true).
Proof.
  split; [apply seconds_timeLeft; exact H0|].
  split; [apply seconds_fields|].
  intros Hn Hplay deltaTime g.
  pose proof (seconds_timeLeft n s H0) as Et.
  pose proof (seconds_fields n s) as Ef.
  assert (playing (seconds n s)) as Hplay'.
  { destruct Hplay as [Ho Hp]. rewrite <- Ef in Ho, Hp. split; assumption. }
  destruct (tick_fields deltaTime (seconds n s) g Hplay')
    as (_ & _ & _ & _ & _ & Hg & _).
  cbn zeta in Hg. rewrite Hg. apply orb_true_iff. right.
  apply Qle_bool_iff. rewrite Et.
  destruct (Q.max_spec 0 (GameState.timeLeft s - inject_Z (Z.of_nat n)))
    as [[A E]|[A E]]; lra.
Qed.

Lemma countdown_runs_out_witness :
  0 <= GameState.timeLeft initialGameState
  /\ GameState.timeLeft (seconds 30 initialGameState) == 0
  /\ GameState.isGameOver (tickState 17 (seconds 30 initialGameState) (constTape 0.5))
     = true.
Proof.
  assert (0 <= GameState.timeLeft initialGameState) as H0 by discriminate.
  split; [exact H0|].
  pose proof (countdown_runs_out 30 initialGameState H0) as (Et & _ & Hover).
  split.
  - rewrite Et. reflexivity.
  - apply Hover; [discriminate | split; reflexivity].
Defined.

(** ** Spawning decisions *)

Lemma spawn_rate_bounds (score : number) :
  rate_collectible (getSpawnRates score) <= 0.03
  /\ rate_obstacle (getSpawnRates score) <= 0.02.
Proof.
  unfold getSpawnRates, rate_collectible, rate_obstacle, Math_min.
  split; apply Q.le_min_r.
Qed.

Lemma spawn_rates_base (score : number) :
  0 <= score ->
  0.015 <= rate_collectible (getSpawnRates score)
  /\ 0.008 <= rate_obstacle (getSpawnRates score).
Proof.
  intros Hs. pose proof (multiplier_ge_1 score Hs) as Hm.
  unfold getSpawnRates, rate_collectible, rate_obstacle, Math_min,
    BASE_SPAWN_RATE_collectible, BASE_SPAWN_RATE_obstacle.
  split; apply Q.min_glb; lra.
Qed.

(** X11. In the movement step of a tick the first draw decides the
    collectible and the second the obstacle.  Whatever the score, a first
    draw of 0.03 or more spawns no collectible and a second draw of 0.02 or
    more spawns no obstacle; at a score [>= 0] a first draw below 0.015
    always appends one collectible, built from the draws after the first
    two; and no tick adds more than one entity of each kind. *)
Theorem spawn_decisions (deltaTime : number) (prev : GameState.t) (g : rng) :
  let moved := movedState deltaTime prev g in
  let cs := scrollCollectibles (horizontalMove deltaTime (GameState.score prev))
              (GameState.collectibles prev) in
  let os := scrollObstacles (obstacleMove deltaTime (GameState.score prev))
              (GameState.obstacles prev) in
  (0.03 <= g 0%nat -> GameState.collectibles moved = cs)
  /\ (0.02 <= g 1%nat -> GameState.obstacles moved = os)
  /\ (0 <= GameState.score prev -> g 0%nat < 0.015 ->
      GameState.collectibles moved
      = cs ++ [fst (spawnCollectible (fun n => g (S (S n))))])
  /\ (0 <= GameState.score prev -> g 1%nat < 0.008 ->
      exists o : Obstacle.t, GameState.obstacles moved = os ++ [o])
  /\ (length (GameState.collectibles moved)
      <= length (GameState.collectibles prev) + 1)%nat
  /\ (length (GameState.obstacles moved)
      <= length (GameState.obstacles prev) + 1)%nat.
Proof.
  cbn zeta.
  destruct (spawn_rate_bounds (GameState.score prev)) as [Bc Bo].
  unfold movedState, newState, bind, ret, Math_random.
  set (rc := rate_collectible (getSpawnRates (GameState.score prev))) in *.
  set (ro := rate_obstacle (getSpawnRates (GameState.score prev))) in *.
  assert (0 <= GameState.score prev -> 0.015 <= rc /\ 0.008 <= ro) as Hbase.
  { intros Hs. destruct (spawn_rates_base _ Hs). auto. }
  assert (forall (m : number) (l : list Collectible.t),
            (length (scrollCollectibles m l) <= length l)%nat) as Lc.
  { intros m l. unfold scrollCollectibles. rewrite length_map. apply filter_length_le. }
  assert (forall (m : number) (l : list Obstacle.t),
            (length (scrollObstacles m l) <= length l)%nat) as Lo.
  { intros m l. unfold scrollObstacles. rewrite length_map. apply filter_length_le. }
  destruct (g 0%nat <? rc) eqn:E0; destruct (g 1%nat <? ro) eqn:E1; reflect_cmp;
    repeat match goal with
    | |- context [spawnCollectible ?g2] => destruct (spawnCollectible g2) as [c gc]
    | |- context [spawnObstacle ?g2] => destruct (spawnObstacle g2) as [o go]
    end;
    cbn [fst snd GameState.collectibles GameState.obstacles];
    rewrite ?length_app, ?app_nil_r; cbn [length];
    (split; [intros; try lra; reflexivity|]);
    (split; [intros; try lra; reflexivity|]);
    (split; [intros Hs Hd; try (destruct (Hbase Hs); lra); reflexivity|]);
    (split; [intros Hs Hd; try (destruct (Hbase Hs); lra); eexists; reflexivity|]);
    split; try apply Lc; try apply Lo;
    try (specialize (Lc (horizontalMove deltaTime (GameState.score prev))
                        (GameState.collectibles prev)); lia);
    try (specialize (Lo (obstacleMove deltaTime (GameState.score prev))
                        (GameState.obstacles prev)); lia).
Qed.

(** ** Elapsed time, motion and the jump *)

(** X12. At a score [>= 0] the scroll of a tick grows with its elapsed
    time: a longer tick never moves the entities less, a tick of more than
    16 ms moves the collectibles by more than 3 and the obstacles by more
    than 4, and the obstacles never move less than the collectibles.  The
    player's integration is per evaluated tick: the position and velocity a
    tick leaves do not depend on its elapsed time. *)
Theorem motion_scales_physics_does_not (d1 d2 : number) (prev : GameState.t)
    (g1 g2 : rng) :
  (0 <= GameState.score prev -> d1 <= d2 ->
     horizontalMove d1 (GameState.score prev)
     <= horizontalMove d2 (GameState.score prev)
     /\ obstacleMove d1 (GameState.score prev)
        <= obstacleMove d2 (GameState.score prev))
  /\ (0 <= GameState.score prev -> 16 < d1 ->
      3 < horizontalMove d1 (GameState.score prev)
      /\ 4 < obstacleMove d1 (GameState.score prev)
      /\ horizontalMove d1 (GameState.score prev)
         <= obstacleMove d1 (GameState.score prev))
  /\ Player.y (GameState.player (tickState d1 prev g1))
     = Player.y (GameState.player (tickState d2 prev g2))
  /\ Player.velocity (GameState.player (tickState d1 prev g1))
     = Player.velocity (GameState.player (tickState d2 prev g2)).
Proof.
  assert (d1 == 16 * (d1 / 16)) as E1 by (field; discriminate).
  assert (d2 == 16 * (d2 / 16)) as E2 by (field; discriminate).
  split; [|split].
  - intros Hs Hd. pose proof (multiplier_ge_1 _ Hs) as Hm.
    unfold horizontalMove, obstacleMove, getSpeeds, horizontal, obstacle,
      BASE_HORIZONTAL_SPEED, BASE_OBSTACLE_SPEED.
    set (m := getDifficultyMultiplier (GameState.score prev)) in *.
    assert (d1 / 16 <= d2 / 16) as Ht by lra.
    split; nra.
  - intros Hs Hd. pose proof (multiplier_ge_1 _ Hs) as Hm.
    unfold horizontalMove, obstacleMove, getSpeeds, horizontal, obstacle,
      BASE_HORIZONTAL_SPEED, BASE_OBSTACLE_SPEED.
    set (m := getDifficultyMultiplier (GameState.score prev)) in *.
    assert (1 < d1 / 16) as Ht by lra.
    repeat split; nra.
  - destruct (playing_or_idle prev) as [Hplay|Hidle].
    + destruct (tick_fields d1 prev g1 Hplay) as (_ & _ & _ & _ & P1 & _ & _ & N1).
      destruct (tick_fields d2 prev g2 Hplay) as (_ & _ & _ & _ & P2 & _ & _ & N2).
      cbn zeta in P1, P2, N1, N2. rewrite P1, P2, N1, N2. split; reflexivity.
    + rewrite !(tickState_idle _ _ _ Hidle). split; reflexivity.
Qed.

Lemma handleInteraction_fields (s : GameState.t) :
  Player.velocity (GameState.player (handleInteraction s)) = JUMP_FORCE
  /\ Player.y (GameState.player (handleInteraction s)) = Player.y (GameState.player s)
  /\ GameState.isGameOver (handleInteraction s) = GameState.isGameOver s
  /\ GameState.isPaused (handleInteraction s) = GameState.isPaused s.
Proof. repeat split. Qed.

(** X13. A jump replaces the velocity and nothing else, so jumping twice
    is jumping once.  In the Playing state the tick after a jump lifts a
    player standing at [y >= 6.7] by exactly 6.7 and leaves the velocity
    -6.7, whatever the velocity was before the jump; a player nearer to the
    top is put at [y = 0] with velocity 0. *)
Theorem jump_overrides_velocity (s : GameState.t) (Hplay : playing s)
    (Hy : Player.y (GameState.player s) <= 560) :
  handleInteraction (handleInteraction s) = handleInteraction s
  /\ GameState_with_player (handleInteraction s) (GameState.player s) = s
  /\ Player_with_velocity (GameState.player (handleInteraction s))
       (Player.velocity (GameState.player s)) = GameState.player s
  /\ (forall (deltaTime : number) (g : rng),
        let p' := GameState.player (tickState deltaTime (handleInteraction s) g) in
        (6.7 <= Player.y (GameState.player s) ->
           Player.y p' == Player.y (GameState.player s) - 6.7
           /\ Player.velocity p' == -6.7)
        /\ (Player.y (GameState.player s) < 6.7 ->
              Player.y p' == 0 /\ Player.velocity p' == 0)).
Proof.
  split; [reflexivity|].
  split; [destruct s; reflexivity|].
  split; [destruct s as [p cs os sc tl go pa]; destruct p; reflexivity|].
  intros deltaTime g. cbn zeta.
  assert (playing (handleInteraction s)) as Hplay' by exact Hplay.
  destruct (tick_fields deltaTime (handleInteraction s) g Hplay')
    as (_ & _ & _ & _ & Hp & _ & _ & Hn).
  cbn zeta in Hp, Hn. rewrite Hp, Hn.
  unfold Player_with_flags. cbn [Player.y Player.velocity].
  destruct (newPlayer_cases (handleInteraction s)) as (_ & _ & Hlow & Hmid & _).
  cbn zeta in Hlow, Hmid.
  destruct (handleInteraction_fields s) as (Ev & Ey & _).
  rewrite Ev, Ey in Hlow, Hmid. unfold JUMP_FORCE in Hlow, Hmid.
  split.
  - intros Hge. destruct Hmid as [E1 E2]; [lra | lra |]. split; lra.
  - intros Hlt. destruct Hlow as (E1 & _ & E2); [lra|]. split; [exact E1|].
    rewrite E2. apply Q.max_l. lra.
Qed.

Lemma jump_overrides_velocity_witness :
  playing initialGameState
  /\ Player.y (GameState.player initialGameState) <= 560
  /\ Player.y (GameState.player
                 (tickState 17 (handleInteraction initialGameState) (constTape 0.5)))
     == Player.y (GameState.player initialGameState) - 6.7.
Proof.
  assert (playing initialGameState) as Hplay by (split; reflexivity).
  assert (Player.y (GameState.player initialGameState) <= 560) as Hy by discriminate.
  split; [exact Hplay|]. split; [exact Hy|].
  pose proof (jump_overrides_velocity initialGameState Hplay Hy) as (_ & _ & _ & Ht).
  apply (Ht 17 (constTape 0.5)). discriminate.
Defined.

(** ** Viewport layout *)

Lemma Qmin_cases (a b : number) :
  (a <= b /\ Qmin a b == a) \/ (b <= a /\ Qmin a b == b).
Proof.
  destruct (Q.min_spec a b) as [[L E]|[L E]]; [left | right]; split; lra.
Qed.

(** X14. [updateGameDimensions] does nothing before the container is
    mounted and otherwise ignores the previous layout.  The height is
    always 600 times the scale.  On a window at least 768 wide the
    container width lies in [[704, 800]], the scale is that width over 800,
    between 0.88 and 1 (exactly 1, with an 800 by 600 field, from a window
    width of 864 on), and the window height plays no part.  On a narrower
    window the container is 16 narrower than the window and the scale is the
    smaller of the container width over 800 and the window height less 120
    over 600, hence below 1. *)
Theorem layout_fits_window (innerWidth innerHeight : number) (l : Layout) :
  updateGameDimensions false innerWidth innerHeight l = l
  /\ (forall l' : Layout,
        updateGameDimensions true innerWidth innerHeight l'
        = updateGameDimensions true innerWidth innerHeight l)
  /\ gameHeight (updateGameDimensions true innerWidth innerHeight l)
     = BASE_GAME_HEIGHT * scale (updateGameDimensions true innerWidth innerHeight l)
  /\ (768 <= innerWidth ->
      let r := updateGameDimensions true innerWidth innerHeight l in
      704 <= gameWidth r /\ gameWidth r <= 800
      /\ scale r = gameWidth r / BASE_GAME_WIDTH
      /\ 0.88 <= scale r /\ scale r <= 1
      /\ (864 <= innerWidth ->
          scale r == 1 /\ gameWidth r == 800 /\ gameHeight r == 600)
      /\ (forall h : number, updateGameDimensions true innerWidth h l = r))
  /\ (innerWidth < 768 ->
      let r := updateGameDimensions true innerWidth innerHeight l in
      gameWidth r == innerWidth - 16
      /\ scale r <= gameWidth r / BASE_GAME_WIDTH
      /\ scale r <= (innerHeight - 120) / BASE_GAME_HEIGHT
      /\ (scale r == gameWidth r / BASE_GAME_WIDTH
          \/ scale r == (innerHeight - 120) / BASE_GAME_HEIGHT)
      /\ scale r < 1).
Proof.
  split; [reflexivity|]. split; [reflexivity|]. split.
  { unfold updateGameDimensions. cbn [negb].
    destruct (innerWidth <? 768); reflexivity. }
  split.
  - intros Hw. cbn zeta. unfold updateGameDimensions. cbn [negb].
    apply Qltb_ge in Hw. rewrite Hw.
    cbn [scale gameWidth gameHeight]. apply Qltb_ge in Hw.
    unfold Math_min, BASE_GAME_WIDTH, BASE_GAME_HEIGHT.
    set (cw := Qmin (innerWidth - 32 * 2) 800).
    assert (cw == 800 * (cw / 800)) as E by (field; discriminate).
    destruct (Qmin_cases (innerWidth - 32 * 2) 800) as [[L M]|[L M]];
      fold cw in M;
      (split; [lra|]); (split; [lra|]); (split; [reflexivity|]);
      (split; [lra|]); (split; [lra|]);
      (split; [intros; repeat split; lra | reflexivity]).
  - intros Hw. cbn zeta. unfold updateGameDimensions. cbn [negb].
    apply Qltb_lt in Hw. rewrite Hw.
    cbn [scale gameWidth gameHeight]. apply Qltb_lt in Hw.
    unfold Math_min, BASE_GAME_WIDTH, BASE_GAME_HEIGHT.
    set (cw := Qmin (innerWidth - 8 * 2) 800).
    set (hs := (innerHeight - 120) / 600).
    set (ws := cw / 800).
    assert (cw == 800 * ws) as Ew by (unfold ws; field; discriminate).
    destruct (Qmin_cases (innerWidth - 8 * 2) 800) as [[L M]|[L M]];
      fold cw in M;
      destruct (Qmin_cases hs ws) as [[L' M']|[L' M']];
      (split; [lra|]); (split; [lra|]); (split; [lra|]);
      (split; [(left; lra) || (right; lra)|]); lra.
Qed.

(** ** The factories, draw by draw *)

Lemma pickType_of_three {T : Type} (a b c d : T) (r : number) :
  0 <= r -> r < 1 ->
  pickType [a; b; c] d r
  = if r * 3 <? 1 then a else if r * 3 <? 2 then b else c.
Proof.
  intros H0 H1. unfold pickType. cbn [length Z.of_nat Pos.of_succ_nat Pos.succ].
  change (inject_Z 3) with 3.
  destruct (r * 3 <? 1) eqn:E1; [|destruct (r * 3 <? 2) eqn:E2]; reflect_cmp.
  - rewrite (Qfloor_band (r * 3) 0); [reflexivity | |].
    + change (inject_Z 0) with 0. lra.
    + change (inject_Z (0 + 1)) with 1. lra.
  - rewrite (Qfloor_band (r * 3) 1); [reflexivity | |].
    + change (inject_Z 1) with 1. lra.
    + change (inject_Z (1 + 1)) with 2. lra.
  - rewrite (Qfloor_band (r * 3) 2); [reflexivity | |].
    + change (inject_Z 2) with 2. lra.
    + change (inject_Z (2 + 1)) with 3. lra.
Qed.

(** X15. On a tape that honours the contract of [Math.random], each
    factory reads exactly three draws.  The first picks the kind by the
    integer part of three times the draw: the first kind of the [types]
    array when the product is below 1, the second when it is below 2, the
    third otherwise, so the index never leaves the array.  The second gives
    a rotation in [[0, 360)]; the third gives [y].  A spawned collectible
    lies wholly inside the 600-high playfield; both entities start at the
    right edge [x = 800]. *)
Theorem factory_draws (g : rng) (Hg : unit_interval g) :
  let c := fst (spawnCollectible g) in
  let o := fst (spawnObstacle g) in
  Collectible.type c
    = (if g 0%nat * 3 <? 1 then token
       else if g 0%nat * 3 <? 2 then moonRocket else diamondHands)
  /\ Obstacle.type o
     = (if g 0%nat * 3 <? 1 then rugPull
        else if g 0%nat * 3 <? 2 then marketDump else whaleWave)
  /\ (exists rot : number,
        Collectible.rotation c = Some rot /\ Obstacle.rotation o = Some rot
        /\ rot = g 1%nat * 360 /\ 0 <= rot /\ rot < 360)
  /\ (Collectible.x c = BASE_GAME_WIDTH /\ Obstacle.x o = BASE_GAME_WIDTH
      /\ Collectible.y c = Obstacle.y o)
  /\ (0 <= Collectible.y c
      /\ Collectible.y c + Collectible.height c <= BASE_GAME_HEIGHT)
  /\ (forall n : nat,
        snd (spawnCollectible g) n = g (3 + n)%nat
        /\ snd (spawnObstacle g) n = g (3 + n)%nat).
Proof.
  cbn zeta. destruct (Hg 0%nat) as [A0 A1]. destruct (Hg 1%nat) as [R0 R1].
  destruct (Hg 2%nat) as [B0 B1].
  unfold spawnCollectible, spawnObstacle, bind, ret, Math_random.
  cbn [fst snd Collectible.type Obstacle.type Collectible.rotation Obstacle.rotation
       Collectible.x Obstacle.x Collectible.y Obstacle.y Collectible.height].
  unfold collectibleTypes, obstacleTypes.
  rewrite !pickType_of_three by assumption.
  split; [reflexivity|]. split; [reflexivity|]. split.
  - eexists. split; [reflexivity|]. split; [reflexivity|].
    split; [reflexivity|]. split; lra.
  - split; [repeat split|].
    unfold BASE_GAME_HEIGHT, PLAYER_SIZE.
    split; [split; nra|].
    intros n. split; reflexivity.
Qed.

Lemma factory_draws_witness :
  unit_interval (tapeOf [0.4; 0.25; 0.5])
  /\ Collectible.type (fst (spawnCollectible (tapeOf [0.4; 0.25; 0.5]))) = moonRocket
  /\ Obstacle.type (fst (spawnObstacle (tapeOf [0.4; 0.25; 0.5]))) = marketDump.
Proof.
  assert (unit_interval (tapeOf [0.4; 0.25; 0.5])) as Hg.
  { intros n. unfold tapeOf.
    do 3 (destruct n as [|n]; [cbn; split; [discriminate | reflexivity]|]).
    destruct n; cbn; split; (discriminate || reflexivity). }
  split; [exact Hg|].
  pose proof (factory_draws _ Hg) as (Hc & Ho & _).
  split; [exact Hc | exact Ho].
Defined.

(** ** Where the entities of a tick come from *)

Lemma scrollCollectibles_In (move : number) (cs : list Collectible.t)
    (c' : Collectible.t) :
  In c' (scrollCollectibles move cs)
  <-> exists c : Collectible.t,
        In c cs /\ ~ Collectible.x c <= -40
        /\ c' = Collectible_with_x c (Collectible.x c - move).
Proof.
  unfold scrollCollectibles. rewrite in_map_iff. split.
  - intros (c & E & Hin). apply filter_In in Hin. destruct Hin as [Hin Hx].
    apply Qgtb_gt in Hx. unfold PLAYER_SIZE in Hx.
    exists c. repeat split; [exact Hin | lra | now symmetry].
  - intros (c & Hin & Hx & E). exists c. split; [now symmetry|].
    apply filter_In. split; [exact Hin|]. apply Qgtb_gt. unfold PLAYER_SIZE. lra.
Qed.

Lemma scrollObstacles_In (move : number) (os : list Obstacle.t) (o' : Obstacle.t) :
  In o' (scrollObstacles move os)
  <-> exists o : Obstacle.t,
        In o os /\ ~ Obstacle.x o <= -40
        /\ o' = Obstacle_with_x o (Obstacle.x o - move).
Proof.
  unfold scrollObstacles. rewrite in_map_iff. split.
  - intros (o & E & Hin). apply filter_In in Hin. destruct Hin as [Hin Hx].
    apply Qgtb_gt in Hx. unfold PLAYER_SIZE in Hx.
    exists o. repeat split; [exact Hin | lra | now symmetry].
  - intros (o & Hin & Hx & E). exists o. split; [now symmetry|].
    apply filter_In. split; [exact Hin|]. apply Qgtb_gt. unfold PLAYER_SIZE. lra.
Qed.

Lemma overlaps_flags {B : Type} `{GameObject B} (p : Player.t) (i d : bool) (b : B) :
  overlaps (Player_with_flags p i d) b <-> overlaps p b.
Proof. reflexivity. Qed.

(** X16. After a tick evaluated in the Playing state, with [p] the player
    it leaves: a collectible of the new snapshot does not overlap [p] and
    is either a collectible of the old snapshot that had [x > -40], moved
    left by the tick's move, or the one just spawned; every collectible of
    the old snapshot with [x > -40] is, once moved, either kept or
    overlapping [p] (collected).  Obstacles are never removed by contact:
    every old obstacle with [x > -40] is in the new snapshot, moved left,
    and every new obstacle is such a one or the one just spawned. *)
Theorem entities_after_tick (deltaTime : number) (prev : GameState.t) (g : rng)
    (Hplay : playing prev) :
  let post := tickState deltaTime prev g in
  let p := GameState.player post in
  let hm := horizontalMove deltaTime (GameState.score prev) in
  let om := obstacleMove deltaTime (GameState.score prev) in
  (forall c' : Collectible.t,
     In c' (GameState.collectibles post) ->
     ~ overlaps p c'
     /\ ((exists c : Collectible.t,
            In c (GameState.collectibles prev) /\ ~ Collectible.x c <= -40
            /\ c' = Collectible_with_x c (Collectible.x c - hm))
         \/ exists g' : rng, c' = fst (spawnCollectible g')))
  /\ (forall c : Collectible.t,
        In c (GameState.collectibles prev) -> ~ Collectible.x c <= -40 ->
        In (Collectible_with_x c (Collectible.x c - hm)) (GameState.collectibles post)
        \/ overlaps p (Collectible_with_x c (Collectible.x c - hm)))
  /\ (forall o : Obstacle.t,
        In o (GameState.obstacles prev) -> ~ Obstacle.x o <= -40 ->
        In (Obstacle_with_x o (Obstacle.x o - om)) (GameState.obstacles post))
  /\ (forall o' : Obstacle.t,
        In o' (GameState.obstacles post) ->
        (exists o : Obstacle.t,
           In o (GameState.obstacles prev) /\ ~ Obstacle.x o <= -40
           /\ o' = Obstacle_with_x o (Obstacle.x o - om))
        \/ exists g' : rng, o' = fst (spawnObstacle g')).
Proof.
  cbn zeta.
  destruct (tick_fields deltaTime prev g Hplay) as (Hc & Ho & _ & _ & Hp & _).
  cbn zeta in Hc, Ho, Hp.
  destruct (movedState_fields deltaTime prev g)
    as (_ & _ & _ & _ & _ & (sc & Ec & Hsc) & (so & Eo & Hso)).
  rewrite Hc, Ho, Hp, Ec, Eo.
  set (pm := GameState.player (movedState deltaTime prev g)).
  split; [|split; [|split]].
  - intros c' Hin. apply kept_iff in Hin. destruct Hin as [Hin Hno].
    split; [rewrite overlaps_flags; exact Hno|].
    apply in_app_or in Hin. destruct Hin as [Hin|Hin].
    + left. apply scrollCollectibles_In. exact Hin.
    + right. destruct Hsc as [->|[g' ->]]; [destruct Hin|].
      destruct Hin as [<-|[]]. exists g'. reflexivity.
  - intros c Hin Hx.
    set (c' := Collectible_with_x c _).
    destruct (hasCollided pm c') eqn:E.
    + right. rewrite overlaps_flags. apply hasCollided_overlaps. exact E.
    + left. apply kept_iff. split.
      * apply in_or_app. left. apply scrollCollectibles_In. exists c. auto.
      * rewrite <- hasCollided_overlaps. congruence.
  - intros o Hin Hx. apply in_or_app. left. apply scrollObstacles_In. exists o. auto.
  - intros o' Hin. apply in_app_or in Hin. destruct Hin as [Hin|Hin].
    + left. apply scrollObstacles_In. exact Hin.
    + right. destruct Hso as [->|[g' ->]]; [destruct Hin|].
      destruct Hin as [<-|[]]. exists g'. reflexivity.
Qed.

Lemma entities_after_tick_witness :
  playing shieldedState
  /\ GameState.collectibles (tickState 17 shieldedState (constTape 0.5)) = []
  /\ In (Obstacle_with_x (obstacleAt rugPull 120 300) (120 - obstacleMove 17 0))
        (GameState.obstacles (tickState 17 shieldedState (constTape 0.5))).
Proof.
  assert (playing shieldedState) as Hplay by (split; reflexivity).
  split; [exact Hplay|]. split; [vm_compute; reflexivity|].
  pose proof (entities_after_tick 17 shieldedState (constTape 0.5) Hplay)
    as (_ & _ & Hobs & _).
  apply (Hobs (obstacleAt rugPull 120 300)).
  - left. reflexivity.
  - intros H. apply H. reflexivity.
Defined.

(** ** Hit windows *)

(** X17. For the player's box as every reachable session has it (40 by 40
    at [x = 100]) and entities of the factories' sizes, the overlap test
    reads: [100 < x + 40], [x < 140], [y_p < y + 40] and [y < y_p + 40] for
    a collectible, and the same with 60 for an obstacle.  All four are
    strict, so boxes that only touch do not collide; a collectible at
    [x <= 60] or [x >= 140] is never collected, and an obstacle at
    [x <= 40] or [x >= 140] never hits: it has passed the player or not
    reached it. *)
Theorem collision_windows (p : Player.t) (c : Collectible.t) (o : Obstacle.t)
    (Hp : playerInBounds p) (Hc : collectibleInField c) (Ho : obstacleInField o) :
  (hasCollided p c = true
   <-> 100 < Collectible.x c + 40 /\ Collectible.x c < 140
       /\ Player.y p < Collectible.y c + 40 /\ Collectible.y c < Player.y p + 40)
  /\ (hasCollided p o = true
      <-> 100 < Obstacle.x o + 60 /\ Obstacle.x o < 140
          /\ Player.y p < Obstacle.y o + 60 /\ Obstacle.y o < Player.y p + 40)
  /\ (Collectible.x c <= 60 \/ 140 <= Collectible.x c -> hasCollided p c = false)
  /\ (Obstacle.x o <= 40 \/ 140 <= Obstacle.x o -> hasCollided p o = false)
  /\ (Collectible.y c + 40 <= Player.y p \/ Player.y p + 40 <= Collectible.y c ->
      hasCollided p c = false)
  /\ (Obstacle.y o + 60 <= Player.y p \/ Player.y p + 40 <= Obstacle.y o ->
      hasCollided p o = false).
Proof.
  destruct Hp as (Px & Pw & Ph & _).
  destruct Hc as (Cw & Ch & _). destruct Ho as (Ow & Oh & _).
  assert (forall {B : Type} `{GameObject B} (b : B),
            ~ overlaps p b -> hasCollided p b = false) as Hno.
  { intros B HB b Hn. destruct (hasCollided p b) eqn:E; [|reflexivity].
    exfalso. apply Hn. apply hasCollided_overlaps. exact E. }
  rewrite !hasCollided_overlaps. unfold overlaps in *.
  cbn [obj_x obj_y obj_width obj_height Collectible_GameObject Obstacle_GameObject]
    in *.
  split; [split; intros (H1 & H2 & H3 & H4); repeat split; lra|].
  split; [split; intros (H1 & H2 & H3 & H4); repeat split; lra|].
  split; [intros Hout; apply (Hno _ _ c); cbn; intros (H1 & H2 & H3 & H4); lra|].
  split; [intros Hout; apply (Hno _ _ o); cbn; intros (H1 & H2 & H3 & H4); lra|].
  split; [intros Hout; apply (Hno _ _ c); cbn; intros (H1 & H2 & H3 & H4); lra|].
  intros Hout; apply (Hno _ _ o); cbn; intros (H1 & H2 & H3 & H4); lra.
Qed.

Lemma collision_windows_witness :
  playerInBounds initialPlayer
  /\ collectibleInField (collectibleAt token 140 300)
  /\ obstacleInField (obstacleAt rugPull 120 300)
  /\ hasCollided initialPlayer (collectibleAt token 140 300) = false
  /\ hasCollided initialPlayer (obstacleAt rugPull 120 300) = true.
Proof.
  assert (playerInBounds initialPlayer) as Hp
    by (unfold playerInBounds; cbn; repeat split; try reflexivity; discriminate).
  assert (collectibleInField (collectibleAt token 140 300)) as Hc
    by (unfold collectibleInField; cbn; repeat split; try reflexivity; discriminate).
  assert (obstacleInField (obstacleAt rugPull 120 300)) as Ho
    by (unfold obstacleInField; cbn; repeat split; try reflexivity; discriminate).
  split; [exact Hp|]. split; [exact Hc|]. split; [exact Ho|].
  pose proof (collision_windows _ _ _ Hp Hc Ho) as (_ & Wo & Wout & _).
  split.
  - apply Wout. right. cbn. discriminate.
  - apply Wo. cbn. repeat split.
Defined.
